(** * Token lifecycle of the edge fetch client

    A shallow embedding of [extension/src/shared/edge-fetch.ts] (the
    classes [EdgeFetchClient] and [EdgeAuthFlow]), of the [useEdgeSession]
    hook with its [SessionStorage], and of the callers of [edgeFetch] in the
    background worker ([handleAuthStatus], [handleDataSync]) and in the
    popup ([handleLogin], [handleLogout]).

    Conventions of the embedding:
    - an [async] function is a computation in the monad [M]: it threads the
      [World] (the client's fields and the browser stores) and ends in a
      value, a thrown exception, or suspended on a promise nobody settles in
      a run of one request ([Blocked]);
    - the platform (network, storage failures, clock, date parsing, passkey
      ceremony) is an oracle [Env]; every theorem quantifies over it;
    - JavaScript truthiness is written out: the empty string, [0], [NaN],
      [undefined] and [null] are falsy;
    - [fetch], [login] and [logout] are run to completion on their own; how
      calls of [refreshAccessToken] interleave is the subject of the
      machine in [SingleFlight]. *)

From Stdlib Require Import ZArith String List Bool Lia.
From stdpp Require Import base option list gmap strings.

Local Open Scope string_scope.
Local Open Scope Z_scope.

(** ** JavaScript values the client inspects *)

(** A [number] holding a timestamp in milliseconds; [new Date(s).getTime()]
    is [NaN] on an unparsable date. *)
Inductive number :=
| Num (z : Z)
| NaN.

Definition truthy_number (n : number) : bool :=
  match n with
  | Num z => negb (z =? 0)
  | NaN => false
  end.

Definition truthy_string (s : string) : bool :=
  negb (String.eqb s "").

Definition truthy_opt_string (o : option string) : bool :=
  match o with
  | Some s => truthy_string s
  | None => false
  end.

Definition truthy_opt_number (o : option number) : bool :=
  match o with
  | Some n => truthy_number n
  | None => false
  end.

(** [a || b] on optional strings: the left operand when truthy, else the right. *)
Definition or_else (a b : option string) : option string :=
  if truthy_opt_string a then a else b.

(** [n - k] and [now >= n] on numbers; anything compared with [NaN] is false. *)
Definition number_sub (n : number) (k : Z) : number :=
  match n with
  | Num z => Num (z - k)
  | NaN => NaN
  end.

Definition now_ge (now : Z) (n : number) : bool :=
  match n with
  | Num z => now >=? z
  | NaN => false
  end.

(** The result of an optional chain [obj?.field] compared against [null]. *)
Inductive JsVal :=
| Undefined
| Null
| Str (s : string).

Definition strict_neq_null (v : JsVal) : bool :=
  match v with
  | Null => false
  | _ => true
  end.

(** A thrown value: an [Error] instance with its message, or anything else. *)
Inductive Exn :=
| JsError (message : string)
| JsThrown (value : string).

(** [`${error}`]: an [Error] prints as ["Error: " + message]. *)
Definition exn_to_string (e : Exn) : string :=
  match e with
  | JsError m => "Error: " +:+ m
  | JsThrown v => v
  end.

(** ** Data model *)

Record TokenData := {
  accessToken : string;
  refreshToken : option string;
  expiresAt : option number;
}.

(** A response; its parsed JSON body is the flat object whose fields the
    client reads, or the rejection of [response.json()]. *)
Record Response := {
  status : Z;
  resp_headers : gmap string string;
  resp_json : gmap string string + Exn;
}.

Definition ok (r : Response) : bool :=
  (200 <=? status r) && (status r <=? 299).

Record Request := {
  url : string;
  method : option string;
  body : option string;
  headers : gmap string string;
}.

Record EdgeFetchOptions := {
  skipAuth : bool;
  skipRetry : bool;
  opt_method : option string;
  opt_body : option string;
  opt_headers : gmap string string;
}.

Inductive FetchResult :=
| Resolved (r : Response)
| Rejected (e : Exn).

(** [EdgeSession] of the hook, also what the stores keep under ["edgeSession"]. *)
Record EdgeSession := {
  session_user : option (gmap string string);
  session_isAuthenticated : bool;
  session_isLoading : bool;
  session_error : option string;
}.

(** What a browser store holds under a key. *)
Inductive Stored :=
| StoredToken (td : TokenData)
| StoredSession (s : EdgeSession)
| StoredText (s : string).

(** Observable effects, in program order (most recent first). *)
Inductive Effect :=
| NetRequest (r : Request)                (* [fetch(url, init)] for an endpoint *)
| NetRefresh (refresh : option string)    (* [POST /api/auth/refresh] *)
| StorageOp (area op : string)            (* a call into a browser store *)
| TabOpened (target : string)             (* [chrome.tabs.create] *)
| ConsoleError (label : string) (e : Exn)
| ConsoleLog (label : string) (e : Exn).

Record World := {
  tokenData : option TokenData;       (* [this.tokenData] *)
  refreshPromise : option nat;        (* [this.refreshPromise] *)
  baseUrl : string;                   (* [this.baseUrl] *)
  local : gmap string Stored;         (* [chrome.storage.local] *)
  sync : gmap string Stored;          (* [chrome.storage.sync] *)
  page : gmap string Stored;          (* [window.localStorage] *)
  session : EdgeSession;              (* the hook's [session] state *)
  trace : list Effect;
}.

(** Where the module runs: [isExtension], [isWeb], or neither. *)
Inductive Platform :=
| Extension
| Web
| Neither.

(** A passkey assertion, with its serialised form for the verify request. *)
Record Credential := {
  cred_id : string;
  cred_assertion : string;
}.

(** How [navigator.credentials.get] ends. *)
Inductive Ceremony :=
| CredentialReturned (c : Credential)
| NoCredential
| CeremonyThrew (e : Exn).

(** The first thing to happen to the tab of the delegated flow. *)
Inductive TabEvent :=
| TabWithoutId
| ReachedSuccessUrl
| ReachedErrorUrl
| ClosedByUser
| TimedOut.

(** The platform. Call [k] of a kind gets the [k]-th answer of its oracle. *)
Record Env := {
  env_now : Z;                                         (* [Date.now()] *)
  env_parseDate : string -> number;                    (* [new Date(s).getTime()] *)
  env_fetch : nat -> Request -> FetchResult;           (* endpoint requests *)
  env_refresh : nat -> option string -> FetchResult;   (* refresh requests *)
  env_storage : nat -> option Exn;                     (* [Some e]: the storage call rejects *)
  env_platform : Platform;
  env_webauthn : bool;                                 (* [navigator.credentials?.get] exists *)
  env_ceremony : Ceremony;
  env_tab : TabEvent + Exn;                            (* [inr e]: [chrome.tabs.create] throws *)
}.

(** ** Pure token queries *)

(** [isTokenExpired()] *)
Definition isTokenExpired (td : option TokenData) (now : Z) : bool :=
  if negb (truthy_opt_number (td ≫= expiresAt)) then false
  else match td ≫= expiresAt with
       | Some e => now_ge now (number_sub e 60000)
       | None => false
       end.

(** [this.tokenData?.accessToken] *)
Definition optional_accessToken (td : option TokenData) : JsVal :=
  match td with
  | None => Undefined
  | Some t => Str (accessToken t)
  end.

(** [isAuthenticated()] *)
Definition isAuthenticated (td : option TokenData) (now : Z) : bool :=
  strict_neq_null (optional_accessToken td) && negb (isTokenExpired td now).

Definition has_refresh_token (td : option TokenData) : bool :=
  truthy_opt_string (td ≫= refreshToken).

Definition has_access_token (td : option TokenData) : bool :=
  match td with
  | Some t => truthy_string (accessToken t)
  | None => false
  end.

(** ** The monad of asynchronous client code *)

Inductive Res (A : Type) :=
| Ok (a : A)
| Throw (e : Exn)
| Blocked (p : nat).   (* awaiting promise [p], which this run cannot settle *)

Arguments Ok {A} a.
Arguments Throw {A} e.
Arguments Blocked {A} p.

Definition M (A : Type) : Type := World -> Res A * World.

Definition ret {A} (a : A) : M A := fun w => (Ok a, w).

Definition throw {A} (e : Exn) : M A := fun w => (Throw e, w).

Definition bind {A B} (m : M A) (k : A -> M B) : M B := fun w =>
  match m w with
  | (Ok a, w') => k a w'
  | (Throw e, w') => (Throw e, w')
  | (Blocked p, w') => (Blocked p, w')
  end.

(** [try { m } catch (e) { h e }] *)
Definition try_catch {A} (m : M A) (h : Exn -> M A) : M A := fun w =>
  match m w with
  | (Throw e, w') => h e w'
  | r => r
  end.

(** [try { m } finally { cleanup }], for a cleanup that cannot throw. *)
Definition try_finally {A} (m : M A) (cleanup : World -> World) : M A := fun w =>
  match m w with
  | (Ok a, w') => (Ok a, cleanup w')
  | (Throw e, w') => (Throw e, cleanup w')
  | (Blocked p, w') => (Blocked p, w')
  end.

Notation "'let*' x ':=' m 'in' k" := (bind m (fun x => k))
  (at level 10, x name, m at level 100, k at level 200).


(** Field updates of the world. *)
Definition set_tokenData (td : option TokenData) (w : World) : World :=
  {| tokenData := td; refreshPromise := refreshPromise w; baseUrl := baseUrl w;
     local := local w; sync := sync w; page := page w;
     session := session w; trace := trace w |}.

Definition set_refreshPromise (p : option nat) (w : World) : World :=
  {| tokenData := tokenData w; refreshPromise := p; baseUrl := baseUrl w;
     local := local w; sync := sync w; page := page w;
     session := session w; trace := trace w |}.

Definition set_baseUrl (u : string) (w : World) : World :=
  {| tokenData := tokenData w; refreshPromise := refreshPromise w; baseUrl := u;
     local := local w; sync := sync w; page := page w;
     session := session w; trace := trace w |}.

Definition set_local (m : gmap string Stored) (w : World) : World :=
  {| tokenData := tokenData w; refreshPromise := refreshPromise w; baseUrl := baseUrl w;
     local := m; sync := sync w; page := page w;
     session := session w; trace := trace w |}.

Definition set_sync (m : gmap string Stored) (w : World) : World :=
  {| tokenData := tokenData w; refreshPromise := refreshPromise w; baseUrl := baseUrl w;
     local := local w; sync := m; page := page w;
     session := session w; trace := trace w |}.

Definition set_page (m : gmap string Stored) (w : World) : World :=
  {| tokenData := tokenData w; refreshPromise := refreshPromise w; baseUrl := baseUrl w;
     local := local w; sync := sync w; page := m;
     session := session w; trace := trace w |}.

Definition set_session (x : EdgeSession) (w : World) : World :=
  {| tokenData := tokenData w; refreshPromise := refreshPromise w; baseUrl := baseUrl w;
     local := local w; sync := sync w; page := page w;
     session := x; trace := trace w |}.

Definition log (e : Effect) (w : World) : World :=
  {| tokenData := tokenData w; refreshPromise := refreshPromise w; baseUrl := baseUrl w;
     local := local w; sync := sync w; page := page w;
     session := session w; trace := e :: trace w |}.

Definition modify (f : World -> World) : M unit := fun w => (Ok tt, f w).

Definition read {A} (f : World -> A) : M A := fun w => (Ok (f w), w).

(** Counting effects of one kind in a trace. *)
Definition is_request (e : Effect) : bool :=
  match e with NetRequest _ => true | _ => false end.

Definition is_refresh (e : Effect) : bool :=
  match e with NetRefresh _ => true | _ => false end.

Definition is_storage (e : Effect) : bool :=
  match e with StorageOp _ _ => true | _ => false end.

Fixpoint count (p : Effect -> bool) (t : list Effect) : nat :=
  match t with
  | [] => O
  | e :: t' => if p e then S (count p t') else count p t'
  end.

Definition request_calls (w : World) : nat := count is_request (trace w).
Definition refresh_calls (w : World) : nat := count is_refresh (trace w).
Definition storage_calls (w : World) : nat := count is_storage (trace w).

(** The requests sent so far, oldest first. *)
Fixpoint sent_requests (t : list Effect) : list Request :=
  match t with
  | [] => []
  | NetRequest r :: t' => sent_requests t' ++ [r]
  | _ :: t' => sent_requests t'
  end.

(** ** The client *)

Section Client.

Variable env : Env.

Definition console_error (label : string) (e : Exn) : M unit :=
  modify (log (ConsoleError label e)).

(** One call into a browser store: it rejects when the platform says so,
    otherwise [commit] takes effect. *)
Definition storage_call (area op : string) (commit : World -> World) : M unit := fun w =>
  let w1 := log (StorageOp area op) w in
  match env_storage env (storage_calls w) with
  | Some e => (Throw e, w1)
  | None => (Ok tt, commit w1)
  end.

(** [loadTokenData()] *)
Definition loadTokenData : M unit :=
  try_catch
    (let* _ := storage_call "local" "get" id in
     let* result := read (fun w => local w !! "tokenData") in
     modify (set_tokenData (match result with
                            | Some (StoredToken td) => Some td
                            | _ => None
                            end)))
    (fun error => console_error "Failed to load token data:" error).

(** [saveTokenData(tokenData)] *)
Definition saveTokenData (td : TokenData) : M unit :=
  try_catch
    (let* _ := storage_call "local" "set"
                 (fun w => set_local (<["tokenData" := StoredToken td]> (local w)) w) in
     modify (set_tokenData (Some td)))
    (fun error => console_error "Failed to save token data:" error).

(** [clearTokenData()] *)
Definition clearTokenData : M unit :=
  try_catch
    (let* _ := storage_call "local" "remove"
                 (fun w => set_local (delete "authToken" (delete "tokenData" (local w))) w) in
     modify (set_tokenData None))
    (fun error => console_error "Failed to clear token data:" error).

(** The network call of [performTokenRefresh]. *)
Definition fetch_refresh : M Response := fun w =>
  let rt := tokenData w ≫= refreshToken in
  let w1 := log (NetRefresh rt) w in
  match env_refresh env (refresh_calls w) rt with
  | Resolved r => (Ok r, w1)
  | Rejected e => (Throw e, w1)
  end.

(** [await response.json()] *)
Definition response_json (r : Response) : M (gmap string string) :=
  match resp_json r with
  | inl j => ret j
  | inr e => throw e
  end.

(** [s ? new Date(s).getTime() : undefined] *)
Definition parse_expiry (s : option string) : option number :=
  match s with
  | Some d => if truthy_string d then Some (env_parseDate env d) else None
  | None => None
  end.

(** The record [performTokenRefresh] saves; a missing access token is kept
    as the empty string, which the client cannot tell from [undefined]. *)
Definition refreshed_token (newTokenData : gmap string string) (cur : option TokenData) : TokenData :=
  {| accessToken := default "" (newTokenData !! "accessToken");
     refreshToken := or_else (newTokenData !! "refreshToken") (cur ≫= refreshToken);
     expiresAt := parse_expiry (newTokenData !! "expiresAt") |}.

(** [performTokenRefresh()] *)
Definition performTokenRefresh : M unit :=
  try_catch
    (let* response := fetch_refresh in
     if negb (ok response) then throw (JsError "Token refresh failed")
     else
       let* newTokenData := response_json response in
       let* cur := read tokenData in
       saveTokenData (refreshed_token newTokenData cur))
    (fun error =>
       let* _ := console_error "Token refresh failed:" error in
       let* _ := clearTokenData in
       throw error).

(** [refreshAccessToken()]. The promise of a refresh is named by the number
    of refreshes started before it. [performTokenRefresh] never reads the
    marker, so setting it before the body runs is what the source does when
    it assigns the promise of the already started call. *)
Definition refreshAccessToken : M unit := fun w =>
  if negb (has_refresh_token (tokenData w)) then
    throw (JsError "No refresh token available") w
  else
    match refreshPromise w with
    | Some p => (Blocked p, w)
    | None =>
        try_finally performTokenRefresh (set_refreshPromise None)
          (set_refreshPromise (Some (refresh_calls w)) w)
    end.

(** One endpoint request: [fetch(url, { ...fetchOptions, headers, credentials })]. *)
Definition request_of (u : string) (options : EdgeFetchOptions) (h : gmap string string)
  : Request :=
  {| url := u; method := opt_method options; body := opt_body options; headers := h |}.

Definition send (u : string) (options : EdgeFetchOptions) (h : gmap string string) : M Response := fun w =>
  let w1 := log (NetRequest (request_of u options h)) w in
  match env_fetch env (request_calls w) (request_of u options h) with
  | Resolved r => (Ok r, w1)
  | Rejected e => (Throw e, w1)
  end.

(** [if (this.tokenData?.accessToken) h['Authorization'] = `Bearer ${...}`] *)
Definition bearer (td : option TokenData) (h : gmap string string) : gmap string string :=
  match td with
  | Some t =>
      if truthy_string (accessToken t)
      then <["Authorization" := "Bearer " +:+ accessToken t]> h
      else h
  | None => h
  end.

(** [chrome.storage.sync.get({ edgeApiUrl: this.baseUrl })] *)
Definition configured_url (w : World) : string :=
  match sync w !! "edgeApiUrl" with
  | Some (StoredText u) => u
  | _ => baseUrl w
  end.

Definition read_settings : M string :=
  let* _ := storage_call "sync" "get" id in
  read configured_url.

(** The rotation step of [fetch]: credentials pushed in response headers. *)
Definition rotate (response : Response) : M unit :=
  let newAccessToken := resp_headers response !! "X-Access-Token" in
  let newRefreshToken := resp_headers response !! "X-Refresh-Token" in
  let expires := resp_headers response !! "X-Token-Expires-At" in
  match newAccessToken with
  | Some a =>
      if truthy_string a then
        let* cur := read tokenData in
        saveTokenData {| accessToken := a;
                         refreshToken := or_else newRefreshToken (cur ≫= refreshToken);
                         expiresAt := parse_expiry expires |}
      else ret tt
  | None => ret tt
  end.

(** The proactive step of [fetch]: refresh an expired token, attach the bearer. *)
Definition prepare_headers (options : EdgeFetchOptions) (headers0 : gmap string string)
  : M (gmap string string) :=
  let* held := read tokenData in
  if negb (skipAuth options) && bool_decide (is_Some held) then
    let* _ := (if isTokenExpired held (env_now env) && has_refresh_token held
               then try_catch refreshAccessToken (fun _ => clearTokenData)
               else ret tt) in
    let* td := read tokenData in
    ret (bearer td headers0)
  else ret headers0.

(** The reactive step of [fetch]: one refresh and one resend after a 401.
    [Some r] is the early [return retryResponse]. *)
Definition retry_once (u : string) (options : EdgeFetchOptions) (headers0 : gmap string string)
  : M (option Response) :=
  try_catch
    (let* _ := refreshAccessToken in
     let* td := read tokenData in
     let retryHeaders := bearer td headers0 in
     let* retryResponse := send u options retryHeaders in
     if negb (status retryResponse =? 401) then ret (Some retryResponse) else ret None)
    (fun refreshError =>
       let* _ := console_error "Token refresh retry failed:" refreshError in
       ret None).

(** [fetch(endpoint, options)], first half: settings, target, headers. *)
Definition target (edgeApiUrl endpoint : string) : string :=
  if String.prefix "http" endpoint then endpoint else edgeApiUrl +:+ endpoint.

Definition base_headers (options : EdgeFetchOptions) : gmap string string :=
  opt_headers options ∪ {["Content-Type" := "application/json"]}.

Definition begin_request (endpoint : string) (options : EdgeFetchOptions)
  : M (string * gmap string string) :=
  let* edgeApiUrl := read_settings in
  let* _ := modify (set_baseUrl edgeApiUrl) in
  let* headers1 := prepare_headers options (base_headers options) in
  ret (target edgeApiUrl endpoint, headers1).

(** [fetch(endpoint, options)], second half: the [try] block and its handler. *)
Definition respond (u : string) (options : EdgeFetchOptions) (headers1 : gmap string string)
  : M Response :=
  try_catch
    (let* response := send u options headers1 in
     let* td := read tokenData in
     if (status response =? 401) && negb (skipRetry options) && has_refresh_token td then
       let* retried := retry_once u options headers1 in
       match retried with
       | Some retryResponse => ret retryResponse
       | None =>
           let* _ := clearTokenData in
           throw (JsError "Authentication required")
       end
     else if status response =? 401 then
       let* _ := clearTokenData in
       throw (JsError "Authentication required")
     else
       let* _ := rotate response in
       ret response)
    (fun error =>
       let* _ := console_error "Edge fetch error:" error in
       throw error).

(** [fetch(endpoint, options)] *)
Definition fetch (endpoint : string) (options : EdgeFetchOptions) : M Response :=
  let* started := begin_request endpoint options in
  respond (fst started) options (snd started).


(** [updateTokenData(tokenData)] *)
Definition updateTokenData (td : TokenData) : M unit := saveTokenData td.

Definition default_options : EdgeFetchOptions :=
  {| skipAuth := false; skipRetry := false; opt_method := None; opt_body := None;
     opt_headers := ∅ |}.

Definition with_method (m : string) (b : option string) (anonymous : bool) : EdgeFetchOptions :=
  {| skipAuth := anonymous; skipRetry := false; opt_method := Some m; opt_body := b;
     opt_headers := ∅ |}.

(** [authenticateWithPasskey(options)]; building the ceremony's argument is
    part of the ceremony. *)
Definition authenticateWithPasskey (challenge : option string) : M Credential :=
  if negb (env_webauthn env) then throw (JsError "WebAuthn not supported")
  else
    try_catch
      (let* challenge1 :=
         (if truthy_opt_string challenge then ret challenge
          else
            let* challengeResponse :=
              fetch "/api/auth/webauthn/challenge"
                    {| skipAuth := true; skipRetry := false; opt_method := None;
                       opt_body := None; opt_headers := ∅ |} in
            let* challengeData := response_json challengeResponse in
            ret (challengeData !! "challenge")) in
       let* credential :=
         (match env_ceremony env with
          | CredentialReturned c => ret c
          | NoCredential => throw (JsError "WebAuthn authentication failed")
          | CeremonyThrew e => throw e
          end) in
       let* verifyResponse :=
         fetch "/api/auth/webauthn/verify"
               (with_method "POST" (Some (cred_assertion credential)) true) in
       if negb (ok verifyResponse) then throw (JsError "WebAuthn verification failed")
       else
         let* authResult := response_json verifyResponse in
         let* _ :=
           (if truthy_opt_string (authResult !! "accessToken") then
              saveTokenData {| accessToken := default "" (authResult !! "accessToken");
                               refreshToken := authResult !! "refreshToken";
                               expiresAt := parse_expiry (authResult !! "expiresAt") |}
            else ret tt) in
         ret credential)
      (fun error =>
         let* _ := console_error "WebAuthn authentication failed:" error in
         throw error).

End Client.

(** ** The other methods of the client *)

(** The global [process], when the bundle has one, with the value of
    [process.env.VITE_EDGE_API_URL]. *)
Inductive Process :=
| NoProcess
| ProcessEnv (VITE_EDGE_API_URL : option string).

(** A value handed over to be sent, as far as the code observes it: its
    truthiness, and what [JSON.stringify] makes of it (a text, [undefined],
    or an exception). *)
Record Payload := {
  payload_truthy : bool;
  payload_json : option string + Exn;
}.

(** [JSON.stringify(data)] *)
Definition stringified (data : Payload) : M (option string) :=
  match payload_json data with
  | inl s => ret s
  | inr e => throw e
  end.

(** [data ? JSON.stringify(data) : undefined] *)
Definition serialized (data : Payload) : M (option string) :=
  if payload_truthy data then stringified data else ret None.

Module EdgeFetchClient.
Section Methods.

Variable env : Env.

(** [getEdgeApiUrl()] *)
Definition getEdgeApiUrl (process : Process) : string :=
  match process with
  | ProcessEnv (Some u) => if truthy_string u then u else "http://localhost:8787"
  | _ => "http://localhost:8787"
  end.

(** [new EdgeFetchClient()]: a client with fresh fields over the stores of
    the context, its [loadTokenData()] run to completion. *)
Definition constructor (process : Process) : M unit :=
  let* _ := modify (fun w =>
              set_baseUrl (getEdgeApiUrl process)
                (set_refreshPromise None (set_tokenData None w))) in
  loadTokenData env.

(** [{ ...options, method, body }]; an absent [options] spreads to nothing. *)
Definition with_request (options : option EdgeFetchOptions) (m : string) (b : option string)
  : EdgeFetchOptions :=
  {| skipAuth := skipAuth (default default_options options);
     skipRetry := skipRetry (default default_options options);
     opt_method := Some m;
     opt_body := b;
     opt_headers := opt_headers (default default_options options) |}.

(** [get(endpoint, options)] *)
Definition get (endpoint : string) (options : option EdgeFetchOptions) : M Response :=
  fetch env endpoint
    (with_request options "GET" (opt_body (default default_options options))).

(** [post(endpoint, data, options)] *)
Definition post (endpoint : string) (data : Payload) (options : option EdgeFetchOptions)
  : M Response :=
  let* b := serialized data in
  fetch env endpoint (with_request options "POST" b).

(** [put(endpoint, data, options)] *)
Definition put (endpoint : string) (data : Payload) (options : option EdgeFetchOptions)
  : M Response :=
  let* b := serialized data in
  fetch env endpoint (with_request options "PUT" b).

(** [delete(endpoint, options)] *)
Definition delete (endpoint : string) (options : option EdgeFetchOptions) : M Response :=
  fetch env endpoint
    (with_request options "DELETE" (opt_body (default default_options options))).

(** [updateBaseUrl(newUrl)] *)
Definition updateBaseUrl (newUrl : string) : M unit :=
  modify (set_baseUrl newUrl).

(** [getTokenData()] *)
Definition getTokenData : M (option TokenData) :=
  read tokenData.

End Methods.
End EdgeFetchClient.

(** ** The authentication flow manager *)

Inductive UserData :=
| UserBody (j : gmap string string)   (* the whole parsed body *)
| UserField (v : string).             (* the body's [user] field *)

Record AuthResult := {
  success : bool;
  auth_user : option UserData;
  auth_error : option string;
  auth_tokenData : option string;
}.

Record AuthFlowOptions := {
  usePasskey : bool;
  extensionId : option string;
}.

Record LoginCredentials := {
  email : string;
  password : string;
}.

(** [JSON.stringify(credentials)] *)
Definition stringify (c : LoginCredentials) : string :=
  "{email:" +:+ email c +:+ ",password:" +:+ password c +:+ "}".

(** [{ success: false, error }] *)
Definition failed (msg : string) : AuthResult :=
  {| success := false; auth_user := None; auth_error := Some msg; auth_tokenData := None |}.

(** [error instanceof Error ? error.message : fallback] *)
Definition message_or (fallback : string) (e : Exn) : string :=
  match e with
  | JsError m => m
  | JsThrown _ => fallback
  end.

Module EdgeAuthFlow.
Section Flow.

Variable env : Env.
Variable flowBaseUrl : string.
Variable options : AuthFlowOptions.

(** [attemptPasskeyAuth()] *)
Definition attemptPasskeyAuth : M AuthResult :=
  try_catch
    (let* credential := authenticateWithPasskey env None in
     let* userResponse := fetch env "/api/auth/session" default_options in
     if negb (ok userResponse)
     then throw (JsError "Failed to get user session after passkey auth")
     else
       let* u := response_json userResponse in
       ret {| success := true; auth_user := Some (UserBody u); auth_error := None;
              auth_tokenData := None |})
    (fun error =>
       throw (JsError ("Passkey authentication failed: " +:+ exn_to_string error))).

(** [credentialAuth(credentials)] *)
Definition credentialAuth (credentials : LoginCredentials) : M AuthResult :=
  let* response :=
    fetch env "/api/auth/login" (with_method "POST" (Some (stringify credentials)) false) in
  if negb (ok response) then
    let errorData := match resp_json response with inl j => j | inr _ => ∅ end in
    throw (JsError (default "Login failed"
                      (or_else (errorData !! "message") (Some "Login failed"))))
  else
    let* result := response_json response in
    ret {| success := true; auth_user := UserField <$> (result !! "user");
           auth_error := None; auth_tokenData := result !! "tokenData" |}.

(** [handleAuthSuccess()] *)
Definition handleAuthSuccess : M AuthResult :=
  try_catch
    (let* response := fetch env "/api/auth/session" default_options in
     if negb (ok response) then throw (JsError "Failed to establish session")
     else
       let* u := response_json response in
       ret {| success := true; auth_user := Some (UserBody u); auth_error := None;
              auth_tokenData := None |})
    (fun error => ret (failed (message_or "Session establishment failed" error))).

(** [openWebAuthFlow()]: the promise resolves on the first event of the tab.
    [chrome.tabs.create] is taken to call back with a tab (possibly without
    an id); from then on the five-minute timer guarantees an event. *)
Definition openWebAuthFlow : M AuthResult :=
  let authUrl :=
    flowBaseUrl +:+ "/auth/extension?extensionId=" +:+
    default "unknown" (or_else (extensionId options) (Some "unknown")) in
  let* _ := modify (log (TabOpened authUrl)) in
  match env_tab env with
  | inr e => throw e
  | inl TabWithoutId => ret (failed "Failed to open authentication tab")
  | inl ReachedSuccessUrl => handleAuthSuccess
  | inl ReachedErrorUrl => ret (failed "Authentication failed in web flow")
  | inl ClosedByUser => ret (failed "Authentication cancelled by user")
  | inl TimedOut => ret (failed "Authentication timeout")
  end.

(** [extensionLogin(credentials)]; [None] of the inner block is its fall-through. *)
Definition extensionLogin (credentials : option LoginCredentials) : M AuthResult :=
  let* early :=
    (if usePasskey options then
       try_catch
         (let* passkeyResult := attemptPasskeyAuth in
          if success passkeyResult then ret (Some passkeyResult) else ret None)
         (fun error =>
            let* _ := modify (log (ConsoleLog "Passkey auth failed, falling back to web flow:" error)) in
            ret None)
     else ret None) in
  match early with
  | Some r => ret r
  | None => openWebAuthFlow
  end.

(** [webLogin(credentials)] *)
Definition webLogin (credentials : option LoginCredentials) : M AuthResult :=
  let* early :=
    (if usePasskey options && negb (bool_decide (is_Some credentials)) then
       try_catch
         (let* r := attemptPasskeyAuth in ret (Some r))
         (fun error =>
            let* _ := modify (log (ConsoleLog "Passkey auth failed, falling back to credentials:" error)) in
            ret None)
     else ret None) in
  match early with
  | Some r => ret r
  | None =>
      match credentials with
      | Some c => credentialAuth c
      | None => throw (JsError "No authentication method available")
      end
  end.

(** The [try] block of [login]. *)
Definition platform_login (credentials : option LoginCredentials) : M AuthResult :=
  match env_platform env with
  | Extension => extensionLogin credentials
  | Web => webLogin credentials
  | Neither => throw (JsError "Unsupported platform")
  end.

(** [login(credentials)] *)
Definition login (credentials : option LoginCredentials) : M AuthResult :=
  try_catch
    (platform_login credentials)
    (fun error =>
       let* _ := console_error "Login failed:" error in
       ret (failed (message_or "Login failed" error))).

(** The guarded server call [logout()] starts with. *)
Definition server_logout : M unit :=
  try_catch
    (let* _ := fetch env "/api/auth/logout" (with_method "POST" None false) in ret tt)
    (fun error => console_error "Server logout failed:" error).

(** [logout()] *)
Definition logout : M unit :=
  let* _ := server_logout in
  match env_platform env with
  | Extension =>
      let* _ := storage_call env "local" "clear" (set_local ∅) in
      storage_call env "sync" "remove" (fun w => set_sync (delete "edgeSession" (sync w)) w)
  | Web =>
      let* _ := modify (fun w => set_page (delete "edgeSession" (page w)) w) in
      modify (fun w => set_page (delete "tokenData" (page w)) w)
  | Neither => ret tt
  end.

(** [isAuthenticated()] of the flow manager: it asks the server. *)
Definition isAuthenticated : M bool :=
  try_catch
    (let* response := fetch env "/api/auth/session" default_options in
     ret (ok response))
    (fun _ => ret false).

(** [register(userData)] *)
Definition register (userData : Payload) : M AuthResult :=
  match env_platform env with
  | Extension =>
      let registerUrl :=
        flowBaseUrl +:+ "/auth/register?extensionId=" +:+
        default "unknown" (or_else (extensionId options) (Some "unknown")) in
      let* _ := modify (log (TabOpened registerUrl)) in
      match env_tab env with
      | inr e => throw e
      | inl _ => ret (failed "Registration must be completed in web browser")
      end
  | _ =>
      try_catch
        (let* b := stringified userData in
         let* response := fetch env "/api/auth/register" (with_method "POST" b false) in
         if negb (ok response) then
           let errorData := match resp_json response with inl j => j | inr _ => ∅ end in
           throw (JsError (default "Registration failed"
                             (or_else (errorData !! "message") (Some "Registration failed"))))
         else
           let* result := response_json response in
           ret {| success := true; auth_user := UserField <$> (result !! "user");
                  auth_error := None; auth_tokenData := result !! "tokenData" |})
        (fun error => ret (failed (message_or "Registration failed" error)))
  end.

End Flow.
End EdgeAuthFlow.

(** ** The session hook *)

Module useEdgeSession.
Section Hook.

Variable env : Env.

(** [sessionStorage.remove(key)] *)
Definition sessionStorage_remove (key : string) : M unit :=
  match env_platform env with
  | Extension => storage_call env "sync" "remove" (fun w => set_sync (delete key (sync w)) w)
  | Web => modify (fun w => set_page (delete key (page w)) w)
  | Neither => ret tt
  end.

Definition signed_out : EdgeSession :=
  {| session_user := None; session_isAuthenticated := false; session_isLoading := false;
     session_error := None |}.

(** [clearSession()] *)
Definition clearSession : M unit :=
  let* _ := modify (set_session signed_out) in
  let* _ := sessionStorage_remove "edgeSession" in
  sessionStorage_remove "authToken".

(** [logout()] *)
Definition logout : M unit :=
  try_catch
    (let* _ := modify (fun w =>
                 set_session {| session_user := session_user (session w);
                                session_isAuthenticated := session_isAuthenticated (session w);
                                session_isLoading := true;
                                session_error := session_error (session w) |} w) in
     let* _ := fetch env "/api/auth/logout" (with_method "POST" None false) in
     clearSession)
    (fun error =>
       let* _ := console_error "Logout error:" error in
       clearSession).

(** [JSON.parse] on a text found in [localStorage]. An entry of [page] that
    is not a [StoredText] stands for the JSON text [sessionStorage.set]
    wrote for it, which parses back to it. *)
Variable JSON_parse : string -> option Stored + Exn.

(** [sessionStorage.get(key)]; [None] is [undefined] or [null]. *)
Definition sessionStorage_get (key : string) : M (option Stored) :=
  match env_platform env with
  | Extension =>
      let* _ := storage_call env "sync" "get" id in
      read (fun w => sync w !! key)
  | Web =>
      let* item := read (fun w => page w !! key) in
      match item with
      | Some (StoredText s) =>
          if truthy_string s then
            match JSON_parse s with
            | inl v => ret v
            | inr e => throw e
            end
          else ret None
      | other => ret other
      end
  | Neither => ret None
  end.

(** [sessionStorage.set(key, value)], for the sessions the hook stores. *)
Definition sessionStorage_set (key : string) (value : EdgeSession) : M unit :=
  match env_platform env with
  | Extension =>
      storage_call env "sync" "set"
        (fun w => set_sync (<[key := StoredSession value]> (sync w)) w)
  | Web =>
      storage_call env "page" "setItem"
        (fun w => set_page (<[key := StoredSession value]> (page w)) w)
  | Neither => ret tt
  end.

(** [cachedSession?.user] *)
Definition cached_user (cachedSession : option Stored) : option (gmap string string) :=
  match cachedSession with
  | Some (StoredSession s) => session_user s
  | _ => None
  end.

(** [{ user, isAuthenticated: true, isLoading: false, error: null }] *)
Definition signed_in (userData : gmap string string) : EdgeSession :=
  {| session_user := Some userData; session_isAuthenticated := true;
     session_isLoading := false; session_error := None |}.

(** [setSession(prev => ({ ...prev, isLoading: true, error: null }))] *)
Definition begin_loading (prev : EdgeSession) : EdgeSession :=
  {| session_user := session_user prev;
     session_isAuthenticated := session_isAuthenticated prev;
     session_isLoading := true; session_error := None |}.

(** [setSession(prev => ({ ...prev, isLoading: false, error: message }))] *)
Definition end_with_error (message : string) (prev : EdgeSession) : EdgeSession :=
  {| session_user := session_user prev;
     session_isAuthenticated := session_isAuthenticated prev;
     session_isLoading := false; session_error := Some message |}.

(** [setSession(prev => ({ ...prev, user, isAuthenticated: true, isLoading: false }))] *)
Definition show_cached (u : gmap string string) (prev : EdgeSession) : EdgeSession :=
  {| session_user := Some u; session_isAuthenticated := true;
     session_isLoading := false; session_error := session_error prev |}.

Definition update_session (f : EdgeSession -> EdgeSession) : M unit :=
  modify (fun w => set_session (f (session w)) w).

(** [loadSession()] *)
Definition loadSession : M unit :=
  try_catch
    (let* _ := update_session begin_loading in
     let* cachedSession := sessionStorage_get "edgeSession" in
     let* _ := (match cached_user cachedSession with
                | Some u => update_session (show_cached u)
                | None => ret tt
                end) in
     let* response := fetch env "/api/auth/session" default_options in
     if ok response then
       let* userData := response_json response in
       let* _ := modify (set_session (signed_in userData)) in
       sessionStorage_set "edgeSession" (signed_in userData)
     else clearSession)
    (fun error =>
       let* _ := console_error "Failed to load session:" error in
       update_session (end_with_error (message_or "Session load failed" error))).

(** [refresh()] *)
Definition refresh : M unit := loadSession.

(** [process.env.VITE_EDGE_API_URL || "http://localhost:8787"]; naming a
    global that does not exist throws a [ReferenceError]. *)
Definition edge_url (process : Process) : M string :=
  match process with
  | NoProcess => throw (JsError "process is not defined")
  | ProcessEnv v =>
      ret (default "http://localhost:8787" (or_else v (Some "http://localhost:8787")))
  end.

(** [login(credentials)]. In the extension the page is opened and a
    listener for the stored session is registered; what the listener does
    later is not part of the call. *)
Definition login (process : Process) (credentials : Payload) : M unit :=
  try_catch
    (let* _ := update_session begin_loading in
     match env_platform env with
     | Extension =>
         let* edgeUrl := edge_url process in
         let* _ := modify (log (TabOpened (edgeUrl +:+ "/login"))) in
         match env_tab env with
         | inr e => throw e
         | inl _ => modify (log (StorageOp "onChanged" "addListener"))
         end
     | _ =>
         let* b := stringified credentials in
         let* response := fetch env "/api/auth/login" (with_method "POST" b false) in
         if ok response then
           let* userData := response_json response in
           let* _ := modify (set_session (signed_in userData)) in
           sessionStorage_set "edgeSession" (signed_in userData)
         else throw (JsError "Login failed")
     end)
    (fun error =>
       let* _ := update_session (end_with_error (message_or "Login failed" error)) in
       throw error).

(** [{ ...session, user: { ...session.user, ...userData } }] *)
Definition with_user (u : gmap string string) (s : EdgeSession) : EdgeSession :=
  {| session_user := Some u; session_isAuthenticated := session_isAuthenticated s;
     session_isLoading := session_isLoading s; session_error := session_error s |}.

(** [updateUser(userData)], for the fields [userData] gives a value. *)
Definition updateUser (userData : gmap string string) : M unit :=
  let* current := read session in
  match session_user current with
  | None => ret tt
  | Some user =>
      let newSession := with_user (userData ∪ user) current in
      let* _ := modify (set_session newSession) in
      sessionStorage_set "edgeSession" newSession
  end.

End Hook.
End useEdgeSession.

(** ** The background worker's handlers *)

Module Background.
Section Handlers.

Variable env : Env.

(** [handleAuthStatus()]; the result is its [authenticated] field. *)
Definition handleAuthStatus : M bool :=
  try_catch
    (let* response := fetch env "/api/auth/session" default_options in
     ret (ok response))
    (fun error =>
       let* _ := console_error "Auth status check failed:" error in
       ret false).

(** The options [handleDataSync] passes to [edgeFetch]. *)
Definition sync_request (b : option string) : EdgeFetchOptions :=
  {| skipAuth := false; skipRetry := false; opt_method := Some "POST"; opt_body := b;
     opt_headers := {["Content-Type" := "application/json"]} |}.

(** [handleDataSync(data)]; the result is its [success] field. *)
Definition handleDataSync (data : Payload) : M bool :=
  try_catch
    (let* b := stringified data in
     let* response := fetch env "/api/extension/sync" (sync_request b) in
     ret (ok response))
    (fun error =>
       let* _ := console_error "Data sync failed:" error in
       ret false).

End Handlers.
End Background.

(** ** The popup's button handlers *)

Module Popup.
Section Handlers.

Variable env : Env.

(** What [login()] is called with: no argument. *)
Definition no_credentials : Payload :=
  {| payload_truthy := false; payload_json := inl None |}.

(** [handleLogin()] *)
Definition handleLogin (process : Process) : M unit :=
  try_catch
    (useEdgeSession.login env process no_credentials)
    (fun error => console_error "Login failed:" error).

(** [handleLogout()] *)
Definition handleLogout : M unit :=
  try_catch
    (useEdgeSession.logout env)
    (fun error => console_error "Logout failed:" error).

End Handlers.
End Popup.

(** ** Concurrent callers of [refreshAccessToken]

    Within one context the callers interleave at their [await]s. The machine
    below runs [refreshAccessToken] and [performTokenRefresh] one
    continuation at a time: an event is a call, the completion of the
    network or storage operation a refresh is suspended on, or the
    resumption of a caller whose awaited promise has settled. *)

(** How the refresh request ends for [performTokenRefresh]: the parsed body,
    or the error its [try] block throws. *)
Definition refresh_reply (fr : FetchResult) : gmap string string + Exn :=
  match fr with
  | Rejected e => inr e
  | Resolved r => if negb (ok r) then inr (JsError "Token refresh failed") else resp_json r
  end.

Module SingleFlight.

(** The promise of one [performTokenRefresh()] call. *)
Inductive Task :=
| AwaitFetch                    (* the refresh request is in flight *)
| AwaitSave (td : TokenData)    (* [saveTokenData]: the store write is in flight *)
| AwaitClear (error : Exn)      (* [clearTokenData]: the store removal is in flight *)
| Settled (r : Res unit).

Inductive Caller :=
| Idle                               (* has not called yet *)
| Refused                            (* found no refresh token: rejected at once *)
| Waiting (owner : bool) (p : nat)   (* suspended on promise [p]; the owner set the marker *)
| Finished (r : Res unit).

Record State := {
  client : World;
  promises : list Task;
  callers : list Caller;
}.

Inductive Event :=
| Call (i : nat)
| NetReply (p : nat) (fr : FetchResult)
| StoreReply (p : nat) (failure : option Exn)
| Resume (i : nat).

Section Machine.

Variable env : Env.

Definition step (ev : Event) (s : State) : option State :=
  let w := client s in
  match ev with
  | Call i =>
      match callers s !! i with
      | Some Idle =>
          if negb (has_refresh_token (tokenData w)) then
            Some {| client := w; promises := promises s;
                    callers := <[i := Refused]> (callers s) |}
          else
            match refreshPromise w with
            | Some p =>
                Some {| client := w; promises := promises s;
                        callers := <[i := Waiting false p]> (callers s) |}
            | None =>
                let p := length (promises s) in
                Some {| client := set_refreshPromise (Some p)
                                    (log (NetRefresh (tokenData w ≫= refreshToken)) w);
                        promises := promises s ++ [AwaitFetch];
                        callers := <[i := Waiting true p]> (callers s) |}
            end
      | _ => None
      end
  | NetReply p fr =>
      match promises s !! p with
      | Some AwaitFetch =>
          match refresh_reply fr with
          | inl newTokenData =>
              Some {| client := log (StorageOp "local" "set") w;
                      promises := <[p := AwaitSave (refreshed_token env newTokenData (tokenData w))]>
                                    (promises s);
                      callers := callers s |}
          | inr error =>
              Some {| client := log (StorageOp "local" "remove")
                                    (log (ConsoleError "Token refresh failed:" error) w);
                      promises := <[p := AwaitClear error]> (promises s);
                      callers := callers s |}
          end
      | _ => None
      end
  | StoreReply p failure =>
      match promises s !! p with
      | Some (AwaitSave td) =>
          Some {| client := match failure with
                            | None =>
                                set_tokenData (Some td)
                                  (set_local (<["tokenData" := StoredToken td]> (local w)) w)
                            | Some e => log (ConsoleError "Failed to save token data:" e) w
                            end;
                  promises := <[p := Settled (Ok tt)]> (promises s);
                  callers := callers s |}
      | Some (AwaitClear error) =>
          Some {| client := match failure with
                            | None =>
                                set_tokenData None
                                  (set_local (delete "authToken" (delete "tokenData" (local w))) w)
                            | Some e => log (ConsoleError "Failed to clear token data:" e) w
                            end;
                  promises := <[p := Settled (Throw error)]> (promises s);
                  callers := callers s |}
      | _ => None
      end
  | Resume i =>
      match callers s !! i with
      | Some (Waiting owner p) =>
          match promises s !! p with
          | Some (Settled r) =>
              Some {| client := if owner then set_refreshPromise None w else w;
                      promises := promises s;
                      callers := <[i := Finished r]> (callers s) |}
          | _ => None
          end
      | _ => None
      end
  end.

Fixpoint exec (evs : list Event) (s : State) : option State :=
  match evs with
  | [] => Some s
  | ev :: evs' =>
      match step ev s with
      | Some s' => exec evs' s'
      | None => None
      end
  end.

End Machine.

Definition initial (w : World) (n : nat) : State :=
  {| client := w; promises := []; callers := replicate n Idle |}.











End SingleFlight.


(** ** Concrete scenarios *)

Module Scenario.

Definition reply (st : Z) (h j : gmap string string) : Response :=
  {| status := st; resp_headers := h; resp_json := inl j |}.

(** A refreshable token that never expires. *)
Definition held : TokenData :=
  {| accessToken := "A"; refreshToken := Some "R"; expiresAt := None |}.

(** A refreshable token that expired long ago ([now] is 100000 below). *)
Definition stale : TokenData :=
  {| accessToken := "A"; refreshToken := Some "R"; expiresAt := Some (Num 5) |}.

(** A token whose expiry is the epoch itself. *)
Definition epoch_token : TokenData :=
  {| accessToken := "A"; refreshToken := None; expiresAt := Some (Num 0) |}.

Definition nobody : EdgeSession :=
  {| session_user := None; session_isAuthenticated := false; session_isLoading := false;
     session_error := None |}.

Definition somebody : EdgeSession :=
  {| session_user := Some {["id" := "1"]}; session_isAuthenticated := true;
     session_isLoading := false; session_error := None |}.

(** A client holding [td], persisted, with a cached session. *)
Definition world (td : option TokenData) : World :=
  {| tokenData := td; refreshPromise := None; baseUrl := "http://localhost:8787";
     local := match td with
              | Some t => {["tokenData" := StoredToken t]}
              | None => ∅
              end;
     sync := {["edgeSession" := StoredSession somebody]};
     page := ∅; session := somebody; trace := [] |}.

Definition platform (requests : nat -> Request -> FetchResult)
    (refreshes : nat -> option string -> FetchResult)
    (storage : nat -> option Exn) : Env :=
  {| env_now := 100000; env_parseDate := fun _ => Num 7200000;
     env_fetch := requests; env_refresh := refreshes; env_storage := storage;
     env_platform := Extension; env_webauthn := true; env_ceremony := NoCredential;
     env_tab := inl TimedOut |}.

Definition quota : Exn := JsError "QUOTA_BYTES quota exceeded".

Definition always_ok : nat -> option Exn := fun _ => None.


Definition refresh_to_B : nat -> option string -> FetchResult := fun _ _ =>
  Resolved (reply 200 ∅ {["accessToken" := "B"]}).

Definition refresh_down : nat -> option string -> FetchResult := fun _ _ =>
  Rejected (JsError "Failed to fetch").

Definition all_200 : nat -> Request -> FetchResult := fun _ _ =>
  Resolved (reply 200 ∅ ∅).

Definition all_401 : nat -> Request -> FetchResult := fun _ _ =>
  Resolved (reply 401 ∅ ∅).

(** The first request is answered 401, the resent one 200 with rotated
    credentials in its headers. *)
Definition once_401_then_rotating : nat -> Request -> FetchResult := fun k _ =>
  match k with
  | O => Resolved (reply 401 ∅ ∅)
  | _ => Resolved (reply 200 {["X-Access-Token" := "T2"]} ∅)
  end.

Definition anonymous : EdgeFetchOptions :=
  {| skipAuth := true; skipRetry := false; opt_method := None; opt_body := None;
     opt_headers := ∅ |}.


(** The request [fetch("/api/data")] of a client holding [held] starts with. *)
Definition started : World :=
  set_baseUrl "http://localhost:8787" (log (StorageOp "sync" "get") (world (Some held))).


Definition rejecting : Env := platform all_401 refresh_to_B always_ok.

Definition unreachable_refresh : Env := platform all_200 refresh_down always_ok.

(** No request gets through. *)
Definition offline : Env :=
  platform (fun _ _ => Rejected (JsError "Failed to fetch")) refresh_down always_ok.

Definition serving : Env := platform all_200 refresh_to_B always_ok.


(** The [Authorization] headers of the requests sent, oldest first. *)
Definition authorizations (w : World) : list (option string) :=
  (fun r => headers r !! "Authorization") <$> sent_requests (trace w).


(** Every response pushes the access token ["T2"] in its headers. *)
Definition rotating : Env :=
  platform (fun _ _ => Resolved (reply 200 {["X-Access-Token" := "T2"]} ∅))
    refresh_to_B always_ok.

(** The browser store rejects every call. *)
Definition storage_down : Env :=
  platform all_200 refresh_to_B (fun _ => Some quota).



(** A web page without WebAuthn whose server refuses every request with a
    message. *)
Definition refusing_web : Env :=
  {| env_now := 100000; env_parseDate := fun _ => Num 7200000;
     env_fetch := fun _ _ => Resolved (reply 403 ∅ {["message" := "Invalid credentials"]});
     env_refresh := refresh_down; env_storage := always_ok;
     env_platform := Web; env_webauthn := false;
     env_ceremony := NoCredential; env_tab := inl TimedOut |}.

Definition flow_options : AuthFlowOptions := {| usePasskey := true; extensionId := None |}.


(** A [JSON.parse] for pages that hold no raw text. *)
Definition parse_nothing : string -> option Stored + Exn := fun _ => inl None.

End Scenario.

(** ** Vocabulary of the statements *)




(** The two shapes of an [AuthResult]. *)
Definition well_shaped (r : AuthResult) : Prop :=
  if success r
  then auth_error r = None
  else (exists msg, auth_error r = Some msg) /\ auth_user r = None /\ auth_tokenData r = None.

(** Every value [m] resolves with satisfies [P]. *)
Definition returns {A} (P : A -> Prop) (m : M A) : Prop :=
  forall w a w', m w = (Ok a, w') -> P a.

Definition early_shaped (o : option AuthResult) : Prop :=
  forall r, o = Some r -> well_shaped r.

(** A computation is [steady] when it never touches the in-flight marker
    and is never left suspended; it is [quiet] when, started with no
    refresh in flight, it ends with none in flight and is never left
    suspended. *)
Definition steady {A} (m : M A) : Prop :=
  forall w, refreshPromise (snd (m w)) = refreshPromise w /\ forall p, fst (m w) <> Blocked p.

Definition quiet {A} (m : M A) : Prop :=
  forall w, refreshPromise w = None ->
    refreshPromise (snd (m w)) = None /\ forall p, fst (m w) <> Blocked p.

(** A computation [preserves] an observation of the world when every run
    leaves it as it found it. *)
Definition preserves {A X} (f : World -> X) (m : M A) : Prop :=
  forall w, f (snd (m w)) = f w.

(** A computation is [bounded] by [n] for a kind of effect when a run adds
    between none and [n] effects of that kind to the trace. *)
Definition bounded {A} (p : Effect -> bool) (n : nat) (m : M A) : Prop :=
  forall w, (count p (trace w) <= count p (trace (snd (m w))) <= count p (trace w) + n)%nat.

(** A computation [establishes] a property of the world when every run that
    resolves ends in a world that has it; it [maintains] one that no run
    loses. *)
Definition establishes {A} (P : World -> Prop) (m : M A) : Prop :=
  forall w a w', m w = (Ok a, w') -> P w'.

Definition maintains {A} (P : World -> Prop) (m : M A) : Prop :=
  forall w, P w -> P (snd (m w)).

(** The requests a run of [m] from [w] sends, oldest first. *)
Definition sent_by {A} (m : M A) (w : World) (l : list Request) : Prop :=
  sent_requests (trace (snd (m w))) = (sent_requests (trace w) ++ l)%list.

(** Headers that differ from the ones [fetch] starts from in the
    [Authorization] entry at most. *)
Definition agrees (options : EdgeFetchOptions) (h : gmap string string) : Prop :=
  forall k, k <> "Authorization" -> h !! k = base_headers options !! k.

(** A request of the call [fetch(endpoint, options)] to the target [u]. *)
Definition uniform (u : string) (options : EdgeFetchOptions) (r : Request) : Prop :=
  url r = u /\ method r = opt_method options /\ body r = opt_body options /\
  agrees options (headers r).

(** No proactive refresh is due: the token held is not expired, or cannot
    be refreshed. *)
Definition no_refresh_due (env : Env) (w : World) : Prop :=
  isTokenExpired (tokenData w) (env_now env) && has_refresh_token (tokenData w) = false.

(** The headers of the first send when no refresh is due beforehand. *)
Definition first_headers (options : EdgeFetchOptions) (td : option TokenData)
  : gmap string string :=
  if skipAuth options then base_headers options else bearer td (base_headers options).

(** The body [post] and [put] send for [data]. *)
Definition sent_body (data : Payload) : option string :=
  if payload_truthy data
  then match payload_json data with inl s => s | inr _ => None end
  else None.


(** [edgeFetch("/api/auth/session")], the call that asks the server whether
    the session is alive. *)
Definition session_check (env : Env) : M Response :=
  fetch env "/api/auth/session" default_options.

Definition no_method : string := "No authentication method available".



(** The hook is not waiting for anything. *)
Definition settled (w : World) : Prop := session_isLoading (session w) = false.

(** The world in which [loadSession] asks the server, in the extension: the
    cached session has been read and, if it names a user, shown. *)
Definition validating (w : World) : World :=
  let w1 := log (StorageOp "sync" "get")
              (set_session (useEdgeSession.begin_loading (session w)) w) in
  match useEdgeSession.cached_user (sync w !! "edgeSession") with
  | Some u => set_session (useEdgeSession.show_cached u (session w1)) w1
  | None => w1
  end.

(** * Properties *)

(** ** Tactics and reduction hints *)

(** The pure helpers stay folded under [simpl] and [cbn]. *)
Arguments has_refresh_token : simpl never.
Arguments isTokenExpired : simpl never.
Arguments bearer : simpl never.
Arguments refreshed_token : simpl never.
Arguments base_headers : simpl never.
Arguments target : simpl never.
Arguments refresh_reply : simpl never.
Arguments configured_url : simpl never.
Arguments request_of : simpl never.

(** Projections of an updated world, and effect counts of an extended trace. *)
Ltac wsimpl :=
  cbn [tokenData refreshPromise baseUrl local sync page session trace
       set_tokenData set_refreshPromise set_baseUrl set_local set_sync set_page set_session
       log fst snd count is_storage is_request is_refresh sent_requests] in *.

(** Unfold the monad's combinators in [H] and reduce what they expose. *)
Ltac mnorm H :=
  cbv beta iota delta [bind try_catch try_finally ret throw read modify console_error] in H.

(** ** Token cache queries *)

Lemma isTokenExpired_None now : isTokenExpired None now = false.
Proof. reflexivity. Qed.

Lemma isTokenExpired_Some t now :
  isTokenExpired (Some t) now =
  match expiresAt t with
  | Some (Num e) => negb (e =? 0) && (now >=? e - 60000)
  | _ => false
  end.
Proof.
  unfold isTokenExpired; simpl.
  destruct (expiresAt t) as [[e|]|]; simpl; try reflexivity.
  destruct (e =? 0); reflexivity.
Qed.

(** C8, as amended: [isTokenExpired()] is true exactly when the expiry is a
    non-zero number and [now >= expiresAt - 60000]; an expiry 30 s ahead
    (and non-zero) is reported expired, one 90 s ahead is not, and a token
    without expiry, or no token, is never reported expired. *)
Theorem isTokenExpired_skew :
  forall (td : option TokenData) (now : Z),
    (isTokenExpired td now = true <->
     exists t e, td = Some t /\ expiresAt t = Some (Num e) /\ e <> 0 /\ now >= e - 60000) /\
    (forall t, expiresAt t = Some (Num (now + 30000)) -> now + 30000 <> 0 ->
               isTokenExpired (Some t) now = true) /\
    (forall t, expiresAt t = Some (Num (now + 90000)) ->
               isTokenExpired (Some t) now = false) /\
    (forall t, expiresAt t = None -> isTokenExpired (Some t) now = false) /\
    isTokenExpired None now = false.
Proof.
  intros td now. repeat split.
  - destruct td as [t|]; [|discriminate].
    rewrite isTokenExpired_Some.
    destruct (expiresAt t) as [[e|]|] eqn:He; try discriminate.
    intros H. apply andb_true_iff in H as [Hz Hge].
    exists t, e. repeat split; auto.
    + intros ->. discriminate.
    + apply Z.geb_le in Hge. lia.
  - intros (t & e & -> & He & Hz & Hge).
    rewrite isTokenExpired_Some, He.
    apply andb_true_iff. split.
    + apply negb_true_iff, Z.eqb_neq. exact Hz.
    + apply Z.geb_le. lia.
  - intros t He Hz. rewrite isTokenExpired_Some, He.
    apply andb_true_iff. split.
    + apply negb_true_iff, Z.eqb_neq. exact Hz.
    + apply Z.geb_le. lia.
  - intros t He. rewrite isTokenExpired_Some, He.
    apply andb_false_iff. right.
    destruct (now >=? now + 90000 - 60000) eqn:H; [|reflexivity].
    apply Z.geb_le in H. lia.
  - intros t He. rewrite isTokenExpired_Some, He. reflexivity.
Qed.

(** C8, the claim as stated fails: an expiry of exactly [0] is present and
    long past, yet the token is not reported expired. *)
Lemma isTokenExpired_epoch_expiry :
  ~ (isTokenExpired (Some Scenario.epoch_token) 1000 = true <->
     exists e, expiresAt Scenario.epoch_token = Some (Num e) /\ 1000 >= e - 60000).
Proof.
  intros [_ H].
  assert (Hx : isTokenExpired (Some Scenario.epoch_token) 1000 = true).
  { apply H. exists 0. split; [reflexivity | lia]. }
  vm_compute in Hx. discriminate.
Qed.

(** C4: with no token data held, [isAuthenticated()] answers [true]. *)
Theorem isAuthenticated_without_token :
  forall now, isAuthenticated None now = true.
Proof. reflexivity. Qed.

(** The access-token conjunct of [isAuthenticated()] never fails. *)
Lemma isAuthenticated_not_expired td now :
  isAuthenticated td now = negb (isTokenExpired td now).
Proof. destruct td; reflexivity. Qed.

(** ** Laws of the monad *)

Section Laws.

Context {A B : Type}.

Lemma bind_Ok (m : M A) (k : A -> M B) w a w' :
  m w = (Ok a, w') -> bind m k w = k a w'.
Proof. unfold bind. intros ->. reflexivity. Qed.

Lemma bind_Throw (m : M A) (k : A -> M B) w e w' :
  m w = (Throw e, w') -> bind m k w = (Throw e, w').
Proof. unfold bind. intros ->. reflexivity. Qed.

Lemma try_catch_Ok (m : M A) (h : Exn -> M A) w a w' :
  m w = (Ok a, w') -> try_catch m h w = (Ok a, w').
Proof. unfold try_catch. intros ->. reflexivity. Qed.

Lemma try_catch_Throw (m : M A) (h : Exn -> M A) w e w' :
  m w = (Throw e, w') -> try_catch m h w = h e w'.
Proof. unfold try_catch. intros ->. reflexivity. Qed.

End Laws.

Lemma steady_quiet {A} (m : M A) : steady m -> quiet m.
Proof. intros Hm w H. destruct (Hm w) as [H1 H2]. split; [congruence | exact H2]. Qed.

Section Steady.

Context {A B : Type}.

Lemma steady_ret (a : A) : steady (ret a).
Proof. intros w. split; [reflexivity | discriminate]. Qed.

Lemma steady_throw (e : Exn) : steady (@throw A e).
Proof. intros w. split; [reflexivity | discriminate]. Qed.

Lemma steady_bind (m : M A) (k : A -> M B) :
  steady m -> (forall a, steady (k a)) -> steady (bind m k).
Proof.
  intros Hm Hk w. unfold bind.
  destruct (Hm w) as [H1 H2].
  destruct (m w) as [[a|e|p] w']; simpl in *.
  - destruct (Hk a w') as [H3 H4]. split; [congruence | exact H4].
  - split; [exact H1 | discriminate].
  - exfalso. apply (H2 p). reflexivity.
Qed.

Lemma steady_try_catch (m : M A) (h : Exn -> M A) :
  steady m -> (forall e, steady (h e)) -> steady (try_catch m h).
Proof.
  intros Hm Hh w. unfold try_catch.
  destruct (Hm w) as [H1 H2].
  destruct (m w) as [[a|e|p] w']; simpl in *.
  - split; [exact H1 | discriminate].
  - destruct (Hh e w') as [H3 H4]. split; [congruence | exact H4].
  - exfalso. apply (H2 p). reflexivity.
Qed.

Lemma steady_modify (f : World -> World) :
  (forall w, refreshPromise (f w) = refreshPromise w) -> steady (modify f).
Proof. intros Hf w. split; [apply Hf | discriminate]. Qed.

Lemma steady_read (f : World -> A) : steady (read f).
Proof. intros w. split; [reflexivity | discriminate]. Qed.

End Steady.

Lemma steady_storage_call env area op commit :
  (forall w, refreshPromise (commit w) = refreshPromise w) ->
  steady (storage_call env area op commit).
Proof.
  intros Hc w. unfold storage_call.
  destruct (env_storage env (storage_calls w)); simpl.
  - split; [reflexivity | discriminate].
  - rewrite Hc. split; [reflexivity | discriminate].
Qed.

Lemma steady_console_error label e : steady (console_error label e).
Proof. apply steady_modify. reflexivity. Qed.

Ltac steady_step :=
  first
    [ apply steady_ret
    | apply steady_throw
    | apply steady_read
    | apply steady_console_error
    | apply steady_modify; reflexivity
    | apply steady_storage_call; reflexivity
    | apply steady_bind; [| intros ?]
    | apply steady_try_catch; [| intros ?]
    | match goal with
      | |- steady (if ?b then _ else _) => destruct b
      | |- steady (match ?x with _ => _ end) => destruct x
      end ].

Lemma steady_saveTokenData env td : steady (saveTokenData env td).
Proof. unfold saveTokenData. repeat steady_step. Qed.

Lemma steady_clearTokenData env : steady (clearTokenData env).
Proof. unfold clearTokenData. repeat steady_step. Qed.

Lemma steady_fetch_refresh env : steady (fetch_refresh env).
Proof.
  intros w. unfold fetch_refresh.
  destruct (env_refresh _ _ _); simpl; (split; [reflexivity | discriminate]).
Qed.

Lemma steady_response_json r : steady (response_json r).
Proof. unfold response_json. repeat steady_step. Qed.

Lemma steady_performTokenRefresh env : steady (performTokenRefresh env).
Proof.
  unfold performTokenRefresh.
  repeat first [ apply steady_fetch_refresh | apply steady_response_json
               | apply steady_saveTokenData | apply steady_clearTokenData | steady_step ].
Qed.

Lemma steady_send env u options h : steady (send env u options h).
Proof.
  intros w. unfold send.
  destruct (env_fetch _ _ _); simpl; (split; [reflexivity | discriminate]).
Qed.

Lemma steady_rotate env r : steady (rotate env r).
Proof. unfold rotate. repeat first [ apply steady_saveTokenData | steady_step ]. Qed.

Lemma steady_read_settings env : steady (read_settings env).
Proof. unfold read_settings. repeat steady_step. Qed.

Section Quiet.

Context {A B : Type}.

Lemma quiet_bind (m : M A) (k : A -> M B) :
  quiet m -> (forall a, quiet (k a)) -> quiet (bind m k).
Proof.
  intros Hm Hk w H. unfold bind.
  destruct (Hm w H) as [H1 H2].
  destruct (m w) as [[a|e|p] w']; simpl in *.
  - apply Hk, H1.
  - split; [exact H1 | discriminate].
  - exfalso. apply (H2 p). reflexivity.
Qed.

Lemma quiet_try_catch (m : M A) (h : Exn -> M A) :
  quiet m -> (forall e, quiet (h e)) -> quiet (try_catch m h).
Proof.
  intros Hm Hh w H. unfold try_catch.
  destruct (Hm w H) as [H1 H2].
  destruct (m w) as [[a|e|p] w']; simpl in *.
  - split; [exact H1 | discriminate].
  - apply Hh, H1.
  - exfalso. apply (H2 p). reflexivity.
Qed.

End Quiet.

(** [try { await p } finally { marker = null }] leaves nothing in flight. *)
Lemma quiet_refreshAccessToken env : quiet (refreshAccessToken env).
Proof.
  intros w H. unfold refreshAccessToken.
  destruct (negb (has_refresh_token (tokenData w))).
  - split; [exact H | discriminate].
  - rewrite H. unfold try_finally.
    destruct (steady_performTokenRefresh env (set_refreshPromise (Some (refresh_calls w)) w))
      as [_ Hb].
    destruct (performTokenRefresh env (set_refreshPromise (Some (refresh_calls w)) w))
      as [[a|e|p] w']; simpl in *.
    + split; [reflexivity | discriminate].
    + split; [reflexivity | discriminate].
    + exfalso. apply (Hb p). reflexivity.
Qed.

Ltac quiet_step :=
  first
    [ apply quiet_refreshAccessToken
    | apply steady_quiet;
      first [ apply steady_ret | apply steady_throw | apply steady_read
            | apply steady_console_error | apply steady_modify; reflexivity
            | apply steady_storage_call; reflexivity
            | apply steady_saveTokenData | apply steady_clearTokenData
            | apply steady_send | apply steady_rotate | apply steady_read_settings
            | apply steady_response_json ]
    | apply quiet_bind; [| intros ?]
    | apply quiet_try_catch; [| intros ?]
    | match goal with
      | |- quiet (if ?b then _ else _) => destruct b
      | |- quiet (match ?x with _ => _ end) => destruct x
      end ].

Lemma quiet_prepare_headers env options h : quiet (prepare_headers env options h).
Proof. unfold prepare_headers. repeat quiet_step. Qed.

Lemma quiet_retry_once env u options h : quiet (retry_once env u options h).
Proof. unfold retry_once. repeat quiet_step. Qed.

Lemma quiet_begin_request env endpoint options : quiet (begin_request env endpoint options).
Proof.
  unfold begin_request.
  repeat first [ apply quiet_prepare_headers | quiet_step ].
Qed.

Lemma quiet_respond env u options h : quiet (respond env u options h).
Proof.
  unfold respond.
  repeat first [ apply quiet_retry_once | quiet_step ].
Qed.

Lemma quiet_fetch env endpoint options : quiet (fetch env endpoint options).
Proof.
  unfold fetch.
  apply quiet_bind; [apply quiet_begin_request | intros ?; apply quiet_respond].
Qed.

(** ** Saving and clearing the token *)

Lemma saveTokenData_stored env td w :
  env_storage env (storage_calls w) = None ->
  saveTokenData env td w =
  (Ok tt, set_tokenData (Some td)
            (set_local (<["tokenData" := StoredToken td]> (local w))
               (log (StorageOp "local" "set") w))).
Proof.
  intros H. unfold saveTokenData, try_catch, bind, storage_call, modify.
  rewrite H. reflexivity.
Qed.

Lemma saveTokenData_rejected env td w e :
  env_storage env (storage_calls w) = Some e ->
  saveTokenData env td w =
  (Ok tt, log (ConsoleError "Failed to save token data:" e) (log (StorageOp "local" "set") w)).
Proof.
  intros H. unfold saveTokenData, try_catch, bind, storage_call, modify.
  rewrite H. reflexivity.
Qed.

Lemma clearTokenData_removed env w :
  env_storage env (storage_calls w) = None ->
  clearTokenData env w =
  (Ok tt, set_tokenData None
            (set_local (delete "authToken" (delete "tokenData" (local w)))
               (log (StorageOp "local" "remove") w))).
Proof.
  intros H. unfold clearTokenData, try_catch, bind, storage_call, modify.
  rewrite H. reflexivity.
Qed.

Lemma clearTokenData_rejected env w e :
  env_storage env (storage_calls w) = Some e ->
  clearTokenData env w =
  (Ok tt, log (ConsoleError "Failed to clear token data:" e)
            (log (StorageOp "local" "remove") w)).
Proof.
  intros H. unfold clearTokenData, try_catch, bind, storage_call, modify.
  rewrite H. reflexivity.
Qed.

(** C7, as amended: a failed store write is logged and swallowed, and the
    token in memory is left as it was; a successful write is followed by
    the adoption of the saved token in memory. *)
Theorem saveTokenData_atomic :
  forall (env : Env) (td : TokenData) (w : World),
    (env_storage env (storage_calls w) = None ->
     fst (saveTokenData env td w) = Ok tt /\
     tokenData (snd (saveTokenData env td w)) = Some td /\
     local (snd (saveTokenData env td w)) !! "tokenData" = Some (StoredToken td)) /\
    (forall e, env_storage env (storage_calls w) = Some e ->
     fst (saveTokenData env td w) = Ok tt /\
     tokenData (snd (saveTokenData env td w)) = tokenData w /\
     local (snd (saveTokenData env td w)) = local w /\
     trace (snd (saveTokenData env td w)) =
       ConsoleError "Failed to save token data:" e :: StorageOp "local" "set" :: trace w).
Proof.
  intros env td w. split.
  - intros H. rewrite (saveTokenData_stored _ _ _ H). simpl.
    repeat split. apply lookup_insert_eq.
  - intros e H. rewrite (saveTokenData_rejected _ _ _ _ H). simpl.
    repeat split.
Qed.

(** C7, the claim as stated fails: the store rejects the write, and
    [saveTokenData] still resolves; nothing reaches the caller. *)
Lemma saveTokenData_failure_not_surfaced :
  env_storage (Scenario.platform Scenario.all_200 Scenario.refresh_to_B (fun _ => Some Scenario.quota))
              (storage_calls (Scenario.world None)) = Some Scenario.quota /\
  ~ (exists e,
       fst (saveTokenData
              (Scenario.platform Scenario.all_200 Scenario.refresh_to_B (fun _ => Some Scenario.quota))
              Scenario.held (Scenario.world None)) = Throw e).
Proof.
  split; [reflexivity |].
  intros [e H]. vm_compute in H. discriminate.
Qed.

Lemma saveTokenData_resolves env td w : fst (saveTokenData env td w) = Ok tt.
Proof.
  destruct (env_storage env (storage_calls w)) as [e|] eqn:H.
  - rewrite (saveTokenData_rejected _ _ _ _ H). reflexivity.
  - rewrite (saveTokenData_stored _ _ _ H). reflexivity.
Qed.

Lemma clearTokenData_resolves env w : fst (clearTokenData env w) = Ok tt.
Proof.
  destruct (env_storage env (storage_calls w)) as [e|] eqn:H.
  - rewrite (clearTokenData_rejected _ _ _ H). reflexivity.
  - rewrite (clearTokenData_removed _ _ H). reflexivity.
Qed.

Lemma clearTokenData_world env w :
  snd (clearTokenData env w) =
  match env_storage env (storage_calls w) with
  | None => set_tokenData None
              (set_local (delete "authToken" (delete "tokenData" (local w)))
                 (log (StorageOp "local" "remove") w))
  | Some e => log (ConsoleError "Failed to clear token data:" e)
                (log (StorageOp "local" "remove") w)
  end.
Proof.
  destruct (env_storage env (storage_calls w)) as [e|] eqn:H.
  - rewrite (clearTokenData_rejected _ _ _ H). reflexivity.
  - rewrite (clearTokenData_removed _ _ H). reflexivity.
Qed.

Lemma saveTokenData_world env td w :
  snd (saveTokenData env td w) =
  match env_storage env (storage_calls w) with
  | None => set_tokenData (Some td)
              (set_local (<["tokenData" := StoredToken td]> (local w))
                 (log (StorageOp "local" "set") w))
  | Some e => log (ConsoleError "Failed to save token data:" e)
                (log (StorageOp "local" "set") w)
  end.
Proof.
  destruct (env_storage env (storage_calls w)) as [e|] eqn:H.
  - rewrite (saveTokenData_rejected _ _ _ _ H). reflexivity.
  - rewrite (saveTokenData_stored _ _ _ H). reflexivity.
Qed.

Lemma clearTokenData_run env w :
  clearTokenData env w = (Ok tt, snd (clearTokenData env w)).
Proof.
  pose proof (clearTokenData_resolves env w).
  destruct (clearTokenData env w); simpl in *; congruence.
Qed.

Lemma saveTokenData_run env td w :
  saveTokenData env td w = (Ok tt, snd (saveTokenData env td w)).
Proof.
  pose proof (saveTokenData_resolves env td w).
  destruct (saveTokenData env td w); simpl in *; congruence.
Qed.






(** ** The refresh, run to completion *)

Lemma performTokenRefresh_failed env w err :
  refresh_reply (env_refresh env (refresh_calls w) (tokenData w ≫= refreshToken)) = inr err ->
  performTokenRefresh env w =
  (Throw err,
   snd (clearTokenData env
          (log (ConsoleError "Token refresh failed:" err)
             (log (NetRefresh (tokenData w ≫= refreshToken)) w)))).
Proof.
  intros H.
  assert (Hh : forall w1,
             bind (console_error "Token refresh failed:" err)
               (fun _ => bind (clearTokenData env) (fun _ => throw (A:=unit) err)) w1 =
             (Throw err,
              snd (clearTokenData env (log (ConsoleError "Token refresh failed:" err) w1)))).
  { intros w1. unfold bind, console_error, modify, throw.
    pose proof (clearTokenData_resolves env (log (ConsoleError "Token refresh failed:" err) w1)) as Hc.
    destruct (clearTokenData env _) as [[[]|e'|p] w']; simpl in *; congruence. }
  unfold performTokenRefresh, try_catch, bind at 1, fetch_refresh.
  unfold refresh_reply in H.
  destruct (env_refresh _ _ _) as [r|e].
  - destruct (negb (ok r)) eqn:Hok.
    + inversion H; subst. unfold throw at 1. apply Hh.
    + unfold bind at 1, response_json. rewrite H. unfold throw at 1. apply Hh.
  - inversion H; subst. apply Hh.
Qed.

Lemma performTokenRefresh_succeeded env w j :
  refresh_reply (env_refresh env (refresh_calls w) (tokenData w ≫= refreshToken)) = inl j ->
  performTokenRefresh env w =
  (Ok tt,
   snd (saveTokenData env (refreshed_token env j (tokenData w))
          (log (NetRefresh (tokenData w ≫= refreshToken)) w))).
Proof.
  intros H.
  unfold performTokenRefresh, try_catch, bind at 1, fetch_refresh.
  unfold refresh_reply in H.
  destruct (env_refresh _ _ _) as [r|e]; [|discriminate].
  destruct (negb (ok r)) eqn:Hok; [discriminate|].
  unfold bind at 1, response_json. rewrite H. unfold ret at 1.
  unfold bind, read.
  pose proof (saveTokenData_resolves env (refreshed_token env j (tokenData w))
                (log (NetRefresh (tokenData w ≫= refreshToken)) w)) as Hs.
  simpl tokenData.
  destruct (saveTokenData env _ _) as [[[]|e'|p] w']; simpl in *; congruence.
Qed.

Lemma refreshAccessToken_run env w :
  refreshPromise w = None ->
  has_refresh_token (tokenData w) = true ->
  refreshAccessToken env w =
  (fst (performTokenRefresh env (set_refreshPromise (Some (refresh_calls w)) w)),
   set_refreshPromise None
     (snd (performTokenRefresh env (set_refreshPromise (Some (refresh_calls w)) w)))).
Proof.
  intros Hm Ht. unfold refreshAccessToken. rewrite Ht, Hm. simpl negb. cbv iota.
  unfold try_finally.
  destruct (steady_performTokenRefresh env (set_refreshPromise (Some (refresh_calls w)) w))
    as [_ Hb].
  destruct (performTokenRefresh env _) as [[[]|e|p] w']; simpl in *; try reflexivity.
  exfalso. apply (Hb p). reflexivity.
Qed.

Lemma refreshAccessToken_refused env w :
  has_refresh_token (tokenData w) = false ->
  refreshAccessToken env w = (Throw (JsError "No refresh token available"), w).
Proof. intros Ht. unfold refreshAccessToken. rewrite Ht. reflexivity. Qed.

Lemma refreshAccessToken_effect env w :
  refreshPromise w = None ->
  has_refresh_token (tokenData w) = true ->
  refreshPromise (snd (refreshAccessToken env w)) = None /\
  request_calls (snd (refreshAccessToken env w)) = request_calls w /\
  refresh_calls (snd (refreshAccessToken env w)) = S (refresh_calls w) /\
  storage_calls (snd (refreshAccessToken env w)) = S (storage_calls w) /\
  sent_requests (trace (snd (refreshAccessToken env w))) = sent_requests (trace w) /\
  match refresh_reply (env_refresh env (refresh_calls w) (tokenData w ≫= refreshToken)) with
  | inl j =>
      fst (refreshAccessToken env w) = Ok tt /\
      tokenData (snd (refreshAccessToken env w)) =
        match env_storage env (storage_calls w) with
        | None => Some (refreshed_token env j (tokenData w))
        | Some _ => tokenData w
        end
  | inr e =>
      fst (refreshAccessToken env w) = Throw e /\
      tokenData (snd (refreshAccessToken env w)) =
        match env_storage env (storage_calls w) with
        | None => None
        | Some _ => tokenData w
        end
  end.
Proof.
  intros Hm Ht. rewrite (refreshAccessToken_run _ _ Hm Ht).
  destruct (refresh_reply _) as [j|e] eqn:E.
  - rewrite performTokenRefresh_succeeded with (j := j) by exact E.
    cbn [fst snd]. rewrite saveTokenData_world.
    unfold request_calls, refresh_calls, storage_calls. wsimpl.
    destruct (env_storage env _); wsimpl; repeat split; reflexivity.
  - rewrite performTokenRefresh_failed with (err := e) by exact E.
    cbn [fst snd]. rewrite clearTokenData_world.
    unfold request_calls, refresh_calls, storage_calls. wsimpl.
    destruct (env_storage env _); wsimpl; repeat split; reflexivity.
Qed.

(** ** The two halves of a request *)


Lemma fetch_after_begin env endpoint options w0 u h w :
  begin_request env endpoint options w0 = (Ok (u, h), w) ->
  fetch env endpoint options w0 = respond env u options h w.
Proof. intros H. unfold fetch. rewrite (bind_Ok _ _ _ _ _ H). reflexivity. Qed.

Lemma rotate_run env r w :
  rotate env r w = (Ok tt, snd (rotate env r w)).
Proof.
  destruct (steady_rotate env r w) as [_ Hb].
  unfold rotate in *.
  destruct (resp_headers r !! "X-Access-Token") as [a|]; [|reflexivity].
  destruct (truthy_string a); [|reflexivity].
  mnorm Hb. unfold bind, read. rewrite saveTokenData_run. reflexivity.
Qed.




(** ** Requests that bypass authentication *)


(** C3: an anonymous request ([skipAuth = true]) answered 401 while a
    refresh token is held refreshes the token and is resent with the new
    bearer header. *)
Theorem skipAuth_request_refreshes_and_attaches_bearer :
  refresh_calls
    (snd (fetch (Scenario.platform Scenario.once_401_then_rotating Scenario.refresh_to_B
                   Scenario.always_ok)
                "/api/auth/webauthn/challenge" Scenario.anonymous
                (Scenario.world (Some Scenario.held)))) = 1%nat /\
  Scenario.authorizations
    (snd (fetch (Scenario.platform Scenario.once_401_then_rotating Scenario.refresh_to_B
                   Scenario.always_ok)
                "/api/auth/webauthn/challenge" Scenario.anonymous
                (Scenario.world (Some Scenario.held)))) = [None; Some "Bearer B"].
Proof. split; vm_compute; reflexivity. Qed.

(** ** Credentials rotated through response headers *)

(** On the first send, a successful response that carries an access token
    rotates the cache, and later requests carry the new bearer. *)
Lemma first_response_rotated env u options h w r a :
  env_fetch env (request_calls w) (request_of u options h) = Resolved r ->
  (status r =? 401) = false ->
  resp_headers r !! "X-Access-Token" = Some a ->
  truthy_string a = true ->
  env_storage env (storage_calls w) = None ->
  fst (respond env u options h w) = Ok r /\
  tokenData (snd (respond env u options h w)) =
    Some {| accessToken := a;
            refreshToken := or_else (resp_headers r !! "X-Refresh-Token")
                                    (tokenData w ≫= refreshToken);
            expiresAt := parse_expiry env (resp_headers r !! "X-Token-Expires-At") |} /\
  forall h', bearer (tokenData (snd (respond env u options h w))) h' !! "Authorization"
             = Some ("Bearer " +:+ a).
Proof.
  intros Hf Hst Ha Hta Hs.
  remember (respond env u options h w) as out eqn:Hout.
  unfold respond in Hout. mnorm Hout. unfold send at 1 in Hout. rewrite Hf in Hout.
  mnorm Hout. rewrite Hst in Hout. cbn [andb] in Hout.
  unfold rotate in Hout. rewrite Ha, Hta in Hout. mnorm Hout.
  rewrite saveTokenData_run, saveTokenData_world in Hout.
  unfold storage_calls in *. wsimpl. rewrite Hs in Hout. mnorm Hout.
  subst out. wsimpl. split; [reflexivity |]. split; [reflexivity |].
  intros h'. unfold bearer. cbn [accessToken]. rewrite Hta. apply lookup_insert_eq.
Qed.

(** C5: a successful response obtained through the retry is returned as
    it is; the access token its headers carry is not written to the cache,
    which keeps the refreshed token. *)
Theorem retried_response_not_rotated :
  fst (fetch (Scenario.platform Scenario.once_401_then_rotating Scenario.refresh_to_B
                Scenario.always_ok)
             "/api/data" default_options (Scenario.world (Some Scenario.held)))
  = Ok (Scenario.reply 200 {["X-Access-Token" := "T2"]} ∅) /\
  accessToken <$>
    tokenData
      (snd (fetch (Scenario.platform Scenario.once_401_then_rotating Scenario.refresh_to_B
                     Scenario.always_ok)
                  "/api/data" default_options (Scenario.world (Some Scenario.held))))
  = Some "B".
Proof. split; vm_compute; reflexivity. Qed.

(** ** Fail-open on a failed proactive refresh *)





(** ** Reactive handling of a 401

    [w0] is the world [fetch] is called in; [w], [u] and [h] are the world,
    target and headers with which the request is first sent. *)




(** ** Logout *)









(** ** Login *)

Lemma returns_ret {A} (P : A -> Prop) a : P a -> returns P (ret a).
Proof. intros H w r' w' E. inversion E; subst. exact H. Qed.

Lemma returns_throw {A} (P : A -> Prop) e : returns P (throw e).
Proof. intros w r w' E. discriminate. Qed.

Lemma returns_bind {A B} (Q : A -> Prop) (P : B -> Prop) (m : M A) (k : A -> M B) :
  returns Q m -> (forall a, Q a -> returns P (k a)) -> returns P (bind m k).
Proof.
  intros Hm Hk w r w' E. unfold bind in E.
  destruct (m w) as [[a|e|p] w1] eqn:Em; try discriminate.
  exact (Hk a (Hm _ _ _ Em) _ _ _ E).
Qed.

Lemma returns_any {A} (m : M A) : returns (fun _ => True) m.
Proof. intros w a w' _. exact I. Qed.

Lemma returns_try_catch {A} (P : A -> Prop) (m : M A) h :
  returns P m -> (forall e, returns P (h e)) -> returns P (try_catch m h).
Proof.
  intros Hm Hh w r w' E. unfold try_catch in E.
  destruct (m w) as [[a|e|p] w1] eqn:Em; try discriminate.
  - inversion E; subst. exact (Hm _ _ _ Em).
  - exact (Hh e _ _ _ E).
Qed.

Lemma well_shaped_failed msg : well_shaped (failed msg).
Proof. unfold well_shaped, failed; simpl. eauto. Qed.

Ltac shaped_step :=
  first
    [ apply returns_throw
    | apply returns_ret; first [ apply well_shaped_failed | reflexivity ]
    | apply (returns_bind (fun _ => True)); [apply returns_any | intros ? _]
    | apply returns_try_catch; [| intros ?]
    | match goal with
      | |- returns _ (if ?b then _ else _) => destruct b
      | |- returns _ (match ?x with _ => _ end) => destruct x
      end ].

Section Flow.
Variable env : Env.
Variable base : string.
Variable options : AuthFlowOptions.

Lemma shaped_attemptPasskeyAuth : returns well_shaped (EdgeAuthFlow.attemptPasskeyAuth env).
Proof. unfold EdgeAuthFlow.attemptPasskeyAuth. repeat shaped_step. Qed.

Lemma shaped_credentialAuth c : returns well_shaped (EdgeAuthFlow.credentialAuth env c).
Proof. unfold EdgeAuthFlow.credentialAuth. repeat shaped_step. Qed.

Lemma shaped_handleAuthSuccess : returns well_shaped (EdgeAuthFlow.handleAuthSuccess env).
Proof. unfold EdgeAuthFlow.handleAuthSuccess. repeat shaped_step. Qed.

Lemma shaped_openWebAuthFlow : returns well_shaped (EdgeAuthFlow.openWebAuthFlow env base options).
Proof.
  unfold EdgeAuthFlow.openWebAuthFlow.
  repeat first [ apply shaped_handleAuthSuccess | shaped_step ].
Qed.

Lemma shaped_extensionLogin c : returns well_shaped (EdgeAuthFlow.extensionLogin env base options c).
Proof.
  unfold EdgeAuthFlow.extensionLogin. apply (returns_bind early_shaped).
  - destruct (usePasskey options).
    + apply returns_try_catch.
      * apply (returns_bind well_shaped); [apply shaped_attemptPasskeyAuth |].
        intros r Hr. destruct (success r); apply returns_ret; intros r' E; congruence.
      * intros e. apply (returns_bind (fun _ => True)); [apply returns_any |].
        intros _ _. apply returns_ret. intros r' E; discriminate.
    + apply returns_ret. intros r' E; discriminate.
  - intros [r|] Hr.
    + apply returns_ret. apply Hr. reflexivity.
    + apply shaped_openWebAuthFlow.
Qed.

Lemma shaped_webLogin c : returns well_shaped (EdgeAuthFlow.webLogin env options c).
Proof.
  unfold EdgeAuthFlow.webLogin. apply (returns_bind early_shaped).
  - destruct (usePasskey options && negb (bool_decide (is_Some c))).
    + apply returns_try_catch.
      * apply (returns_bind well_shaped); [apply shaped_attemptPasskeyAuth |].
        intros r Hr. apply returns_ret; intros r' E; congruence.
      * intros e. apply (returns_bind (fun _ => True)); [apply returns_any |].
        intros _ _. apply returns_ret. intros r' E; discriminate.
    + apply returns_ret. intros r' E; discriminate.
  - intros [r|] Hr.
    + apply returns_ret. apply Hr. reflexivity.
    + destruct c; [apply shaped_credentialAuth | apply returns_throw].
Qed.

Lemma shaped_login c : returns well_shaped (EdgeAuthFlow.login env base options c).
Proof.
  unfold EdgeAuthFlow.login, EdgeAuthFlow.platform_login. apply returns_try_catch.
  - destruct (env_platform env);
      [apply shaped_extensionLogin | apply shaped_webLogin | apply returns_throw].
  - intros e. repeat shaped_step.
Qed.

Lemma login_run c w :
  EdgeAuthFlow.login env base options c w =
  match EdgeAuthFlow.platform_login env base options c w with
  | (Ok r, w') => (Ok r, w')
  | (Throw e, w') =>
      (Ok (failed (message_or "Login failed" e)), log (ConsoleError "Login failed:" e) w')
  | (Blocked p, w') => (Blocked p, w')
  end.
Proof.
  unfold EdgeAuthFlow.login, try_catch.
  destruct (EdgeAuthFlow.platform_login env base options c w) as [[r|e|p] w']; reflexivity.
Qed.

Lemma login_catches c w e :
  fst (EdgeAuthFlow.login env base options c w) <> Throw e.
Proof.
  rewrite login_run.
  destruct (EdgeAuthFlow.platform_login env base options c w) as [[r|e'|p] w'];
    cbn; discriminate.
Qed.

Ltac quiet_step2 :=
  first [ apply quiet_fetch | apply steady_quiet; apply steady_saveTokenData | quiet_step ].

Lemma quiet_authenticateWithPasskey ch : quiet (authenticateWithPasskey env ch).
Proof. unfold authenticateWithPasskey. repeat quiet_step2. Qed.

Lemma quiet_attemptPasskeyAuth : quiet (EdgeAuthFlow.attemptPasskeyAuth env).
Proof.
  unfold EdgeAuthFlow.attemptPasskeyAuth.
  repeat first [ apply quiet_authenticateWithPasskey | quiet_step2 ].
Qed.

Lemma quiet_login c : quiet (EdgeAuthFlow.login env base options c).
Proof.
  unfold EdgeAuthFlow.login, EdgeAuthFlow.platform_login,
    EdgeAuthFlow.extensionLogin, EdgeAuthFlow.webLogin,
    EdgeAuthFlow.openWebAuthFlow, EdgeAuthFlow.handleAuthSuccess, EdgeAuthFlow.credentialAuth.
  repeat first [ apply quiet_attemptPasskeyAuth | quiet_step2 ].
Qed.

End Flow.

(** C10: [login] never rejects. Whatever the platform flows do, the promise
    of [login] is not rejected; an error thrown in its [try] block is caught
    and turned into [{ success: false, error }] carrying the error's message
    (or "Login failed" for a thrown non-Error); every result has one of the
    two shapes; and with no refresh in flight [login] does resolve. *)
Theorem login_never_rejects :
  forall (env : Env) (flowBaseUrl : string) (options : AuthFlowOptions)
         (credentials : option LoginCredentials) (w : World),
    (forall e, fst (EdgeAuthFlow.login env flowBaseUrl options credentials w) <> Throw e) /\
    (forall r, fst (EdgeAuthFlow.login env flowBaseUrl options credentials w) = Ok r ->
               well_shaped r) /\
    (forall e w',
        EdgeAuthFlow.platform_login env flowBaseUrl options credentials w = (Throw e, w') ->
        EdgeAuthFlow.login env flowBaseUrl options credentials w =
          (Ok (failed (message_or "Login failed" e)), log (ConsoleError "Login failed:" e) w')) /\
    (refreshPromise w = None ->
     exists r, fst (EdgeAuthFlow.login env flowBaseUrl options credentials w) = Ok r).
Proof.
  intros env flowBaseUrl options credentials w. repeat split.
  - intros e. apply login_catches.
  - intros r H.
    destruct (EdgeAuthFlow.login env flowBaseUrl options credentials w) as [r' w'] eqn:E.
    cbn [fst] in H. subst r'. exact (shaped_login env flowBaseUrl options credentials _ _ _ E).
  - intros e w' H. rewrite login_run, H. reflexivity.
  - intros Hm.
    destruct (quiet_login env flowBaseUrl options credentials w Hm) as [_ Hb].
    pose proof (login_catches env flowBaseUrl options credentials w) as Ht.
    destruct (EdgeAuthFlow.login env flowBaseUrl options credentials w) as [[r|e|p] w'];
      cbn [fst] in *.
    + exists r. reflexivity.
    + exfalso. apply (Ht e). reflexivity.
    + exfalso. apply (Hb p). reflexivity.
Qed.

(** On a platform that is neither an extension nor a web page, [login]
    resolves with the failure it threw itself. *)
Example login_unsupported_platform :
  fst (EdgeAuthFlow.login
         {| env_now := 0; env_parseDate := fun _ => NaN;
            env_fetch := Scenario.all_200; env_refresh := Scenario.refresh_down;
            env_storage := Scenario.always_ok; env_platform := Neither;
            env_webauthn := false; env_ceremony := NoCredential; env_tab := inl TimedOut |}
         "http://localhost:8787" {| usePasskey := true; extensionId := None |} None
         (Scenario.world None))
  = Ok (failed "Unsupported platform").
Proof. reflexivity. Qed.

(** ** Single-flight refresh *)

Import SingleFlight.

Lemma refreshed_token_keeps_refresh env j cur :
  has_refresh_token cur = true ->
  has_refresh_token (Some (refreshed_token env j cur)) = true.
Proof.
  unfold has_refresh_token, refreshed_token, or_else. simpl.
  intros H. destruct (truthy_opt_string (j !! "refreshToken")) eqn:E; [exact E | exact H].
Qed.




Section Steps.
Variable env : Env.
Variable w0 : World.
Hypothesis Htoken : has_refresh_token (tokenData w0) = true.
Hypothesis Hmarker : refreshPromise w0 = None.








End Steps.





(** One caller, stepped through the machine, is [refreshAccessToken] run to
    completion against the same platform answers. *)
Lemma one_caller_agrees env w :
  has_refresh_token (tokenData w) = true ->
  refreshPromise w = None ->
  exec env
    [Call 0;
     NetReply 0 (env_refresh env (refresh_calls w) (tokenData w ≫= refreshToken));
     StoreReply 0 (env_storage env (storage_calls w));
     Resume 0]
    (initial w 1)
  = Some {| client := snd (refreshAccessToken env w);
            promises := [Settled (fst (refreshAccessToken env w))];
            callers := [Finished (fst (refreshAccessToken env w))] |}.
Proof.
  intros Ht Hm.
  rewrite (refreshAccessToken_run _ _ Hm Ht).
  cbn [exec]. unfold step at 1, initial. cbv zeta.
  cbn [callers client promises]. change (replicate 1 Idle !! 0%nat) with (Some Idle).
  cbv beta iota. rewrite Ht, Hm. cbn [negb length app].
  change (<[0%nat:=Waiting true 0]> (replicate 1 Idle)) with [Waiting true 0].
  unfold step at 1. cbv zeta. cbn [promises client callers].
  change ([AwaitFetch] !! 0%nat) with (Some AwaitFetch). cbv beta iota.
  wsimpl.
  destruct (refresh_reply (env_refresh env (refresh_calls w) (tokenData w ≫= refreshToken)))
    as [j|e] eqn:E.
  - rewrite performTokenRefresh_succeeded with (j := j) by exact E.
    rewrite saveTokenData_world.
    unfold step at 1. cbv zeta. cbn [promises client callers].
    match goal with |- context [<[0%nat:=?x]> [AwaitFetch]] =>
      change (<[0%nat:=x]> [AwaitFetch]) with [x] end.
    match goal with |- context [[?x] !! 0%nat] => change ([x] !! 0%nat) with (Some x) end.
    cbv beta iota.
    unfold step at 1. cbv zeta. cbn [promises client callers].
    change ([Waiting true 0] !! 0%nat) with (Some (Waiting true 0)). cbv beta iota.
    match goal with |- context [<[0%nat:=?x]> [?y]] =>
      change (<[0%nat:=x]> [y]) with [x] end.
    match goal with |- context [[?x] !! 0%nat] => change ([x] !! 0%nat) with (Some x) end.
    cbv beta iota.
    unfold storage_calls. wsimpl.
    destruct (env_storage env (count is_storage (trace w))); reflexivity.
  - rewrite performTokenRefresh_failed with (err := e) by exact E.
    rewrite clearTokenData_world.
    unfold step at 1. cbv zeta. cbn [promises client callers].
    match goal with |- context [<[0%nat:=?x]> [AwaitFetch]] =>
      change (<[0%nat:=x]> [AwaitFetch]) with [x] end.
    match goal with |- context [[?x] !! 0%nat] => change ([x] !! 0%nat) with (Some x) end.
    cbv beta iota.
    unfold step at 1. cbv zeta. cbn [promises client callers].
    change ([Waiting true 0] !! 0%nat) with (Some (Waiting true 0)). cbv beta iota.
    match goal with |- context [<[0%nat:=?x]> [?y]] =>
      change (<[0%nat:=x]> [y]) with [x] end.
    match goal with |- context [[?x] !! 0%nat] => change ([x] !! 0%nat) with (Some x) end.
    cbv beta iota.
    unfold storage_calls. wsimpl.
    destruct (env_storage env (count is_storage (trace w))); reflexivity.
Qed.

(** * Properties of the rest of the code *)

(** ** Observations a computation leaves alone *)

Section Preserves.

Context {A B X : Type} (f : World -> X).

Lemma preserves_ret (a : A) : preserves f (ret a).
Proof. intros w. reflexivity. Qed.

Lemma preserves_throw (e : Exn) : preserves f (@throw A e).
Proof. intros w. reflexivity. Qed.

Lemma preserves_read (g : World -> A) : preserves f (read g).
Proof. intros w. reflexivity. Qed.

Lemma preserves_modify (g : World -> World) :
  (forall w, f (g w) = f w) -> preserves f (modify g).
Proof. intros H w. apply H. Qed.

Lemma preserves_bind (m : M A) (k : A -> M B) :
  preserves f m -> (forall a, preserves f (k a)) -> preserves f (bind m k).
Proof.
  intros Hm Hk w. unfold bind. specialize (Hm w).
  destruct (m w) as [[a|e|p] w']; cbn [snd] in *; [| exact Hm | exact Hm].
  rewrite (Hk a w'). exact Hm.
Qed.

Lemma preserves_try_catch (m : M A) (h : Exn -> M A) :
  preserves f m -> (forall e, preserves f (h e)) -> preserves f (try_catch m h).
Proof.
  intros Hm Hh w. unfold try_catch. specialize (Hm w).
  destruct (m w) as [[a|e|p] w']; cbn [snd] in *; [exact Hm | | exact Hm].
  rewrite (Hh e w'). exact Hm.
Qed.

End Preserves.

(** What the token cache leaves alone: every observation that depends
    neither on the token, the marker or the local store, nor on the effects
    logged other than requests. *)
Section Frame.

Context {X : Type} (f : World -> X).
Variable env : Env.

Hypothesis f_log : forall e w, is_request e = false -> f (log e w) = f w.
Hypothesis f_token : forall t w, f (set_tokenData t w) = f w.
Hypothesis f_marker : forall p w, f (set_refreshPromise p w) = f w.
Hypothesis f_local : forall m w, f (set_local m w) = f w.

Lemma preserves_console_error label e : preserves f (console_error label e).
Proof. apply preserves_modify. intros w. apply f_log. reflexivity. Qed.

Lemma preserves_storage_call area op commit :
  (forall w, f (commit w) = f w) -> preserves f (storage_call env area op commit).
Proof.
  intros Hc w. unfold storage_call.
  destruct (env_storage env (storage_calls w)); cbn [snd].
  - apply f_log. reflexivity.
  - rewrite Hc. apply f_log. reflexivity.
Qed.

Lemma preserves_saveTokenData td : preserves f (saveTokenData env td).
Proof.
  unfold saveTokenData. apply preserves_try_catch.
  - apply preserves_bind.
    + apply preserves_storage_call. intros w. apply f_local.
    + intros _. apply preserves_modify. intros w. apply f_token.
  - intros e. apply preserves_console_error.
Qed.

Lemma preserves_clearTokenData : preserves f (clearTokenData env).
Proof.
  unfold clearTokenData. apply preserves_try_catch.
  - apply preserves_bind.
    + apply preserves_storage_call. intros w. apply f_local.
    + intros _. apply preserves_modify. intros w. apply f_token.
  - intros e. apply preserves_console_error.
Qed.

Lemma preserves_fetch_refresh : preserves f (fetch_refresh env).
Proof.
  intros w. unfold fetch_refresh.
  destruct (env_refresh _ _ _); cbn [snd]; apply f_log; reflexivity.
Qed.

Lemma preserves_response_json r : preserves f (response_json r).
Proof.
  unfold response_json. destruct (resp_json r); [apply preserves_ret | apply preserves_throw].
Qed.

Lemma preserves_performTokenRefresh : preserves f (performTokenRefresh env).
Proof.
  unfold performTokenRefresh. apply preserves_try_catch.
  - apply preserves_bind; [apply preserves_fetch_refresh |].
    intros r. destruct (negb (ok r)); [apply preserves_throw |].
    apply preserves_bind; [apply preserves_response_json |].
    intros j. apply preserves_bind; [apply preserves_read |].
    intros cur. apply preserves_saveTokenData.
  - intros e. apply preserves_bind; [apply preserves_console_error |].
    intros _. apply preserves_bind; [apply preserves_clearTokenData |].
    intros _. apply preserves_throw.
Qed.

Lemma preserves_refreshAccessToken : preserves f (refreshAccessToken env).
Proof.
  intros w. unfold refreshAccessToken.
  destruct (negb (has_refresh_token (tokenData w))); [reflexivity |].
  destruct (refreshPromise w) as [p|]; [reflexivity |].
  unfold try_finally.
  pose proof (preserves_performTokenRefresh (set_refreshPromise (Some (refresh_calls w)) w)) as H.
  rewrite f_marker in H.
  destruct (performTokenRefresh env _) as [[a|e|p] w']; cbn [snd] in *;
    rewrite ?f_marker; exact H.
Qed.

Lemma preserves_rotate r : preserves f (rotate env r).
Proof.
  unfold rotate. destruct (resp_headers r !! "X-Access-Token") as [a|]; [| apply preserves_ret].
  destruct (truthy_string a); [| apply preserves_ret].
  apply preserves_bind; [apply preserves_read |].
  intros cur. apply preserves_saveTokenData.
Qed.

Lemma preserves_read_settings : preserves f (read_settings env).
Proof.
  unfold read_settings. apply preserves_bind.
  - apply preserves_storage_call. reflexivity.
  - intros _. apply preserves_read.
Qed.

Lemma preserves_prepare_headers options h : preserves f (prepare_headers env options h).
Proof.
  unfold prepare_headers. apply preserves_bind; [apply preserves_read |].
  intros held. destruct (negb (skipAuth options) && bool_decide (is_Some held));
    [| apply preserves_ret].
  apply preserves_bind.
  - destruct (isTokenExpired held (env_now env) && has_refresh_token held);
      [| apply preserves_ret].
    apply preserves_try_catch; [apply preserves_refreshAccessToken |].
    intros _. apply preserves_clearTokenData.
  - intros _. apply preserves_bind; [apply preserves_read |].
    intros td. apply preserves_ret.
Qed.

(** Observations that do not depend on the requests logged either. *)
Hypothesis f_request : forall r w, f (log (NetRequest r) w) = f w.

Lemma preserves_send u options h : preserves f (send env u options h).
Proof.
  intros w. unfold send.
  destruct (env_fetch _ _ _); cbn [snd]; apply f_request.
Qed.

Lemma preserves_retry_once u options h : preserves f (retry_once env u options h).
Proof.
  unfold retry_once. apply preserves_try_catch.
  - apply preserves_bind; [apply preserves_refreshAccessToken |].
    intros _. apply preserves_bind; [apply preserves_read |].
    intros td. apply preserves_bind; [apply preserves_send |].
    intros r. destruct (negb (status r =? 401)); apply preserves_ret.
  - intros e. apply preserves_bind; [apply preserves_console_error |].
    intros _. apply preserves_ret.
Qed.

Lemma preserves_respond u options h : preserves f (respond env u options h).
Proof.
  unfold respond. apply preserves_try_catch.
  - apply preserves_bind; [apply preserves_send |].
    intros r. apply preserves_bind; [apply preserves_read |].
    intros td.
    destruct ((status r =? 401) && negb (skipRetry options) && has_refresh_token td).
    + apply preserves_bind; [apply preserves_retry_once |].
      intros [rr|]; [apply preserves_ret |].
      apply preserves_bind; [apply preserves_clearTokenData |].
      intros _. apply preserves_throw.
    + destruct (status r =? 401).
      * apply preserves_bind; [apply preserves_clearTokenData |].
        intros _. apply preserves_throw.
      * apply preserves_bind; [apply preserves_rotate |].
        intros _. apply preserves_ret.
  - intros e. apply preserves_bind; [apply preserves_console_error |].
    intros _. apply preserves_throw.
Qed.

(** Observations that do not depend on the base URL either. *)
Hypothesis f_baseUrl : forall u w, f (set_baseUrl u w) = f w.

Lemma preserves_begin_request endpoint options :
  preserves f (begin_request env endpoint options).
Proof.
  unfold begin_request. apply preserves_bind; [apply preserves_read_settings |].
  intros u. apply preserves_bind.
  - apply preserves_modify. intros w. apply f_baseUrl.
  - intros _. apply preserves_bind; [apply preserves_prepare_headers |].
    intros h. apply preserves_ret.
Qed.

Lemma preserves_fetch endpoint options : preserves f (fetch env endpoint options).
Proof.
  unfold fetch. apply preserves_bind; [apply preserves_begin_request |].
  intros started. apply preserves_respond.
Qed.

End Frame.

Lemma sent_log e w :
  is_request e = false -> sent_requests (trace (log e w)) = sent_requests (trace w).
Proof. destruct e; cbn; intros H; first [discriminate H | reflexivity]. Qed.

Lemma sent_refreshAccessToken env w :
  sent_requests (trace (snd (refreshAccessToken env w))) = sent_requests (trace w).
Proof.
  apply (preserves_refreshAccessToken (fun w => sent_requests (trace w)) env sent_log);
    reflexivity.
Qed.

Lemma sent_clearTokenData env w :
  sent_requests (trace (snd (clearTokenData env w))) = sent_requests (trace w).
Proof.
  apply (preserves_clearTokenData (fun w => sent_requests (trace w)) env sent_log);
    reflexivity.
Qed.

Lemma sent_rotate env r w :
  sent_requests (trace (snd (rotate env r w))) = sent_requests (trace w).
Proof.
  apply (preserves_rotate (fun w => sent_requests (trace w)) env sent_log); reflexivity.
Qed.

Lemma sent_begin_request env endpoint options w :
  sent_requests (trace (snd (begin_request env endpoint options w))) = sent_requests (trace w).
Proof.
  apply (preserves_begin_request (fun w => sent_requests (trace w)) env sent_log);
    reflexivity.
Qed.

Lemma baseUrl_prepare_headers env options h w :
  baseUrl (snd (prepare_headers env options h w)) = baseUrl w.
Proof. apply (preserves_prepare_headers baseUrl env); reflexivity. Qed.

Lemma baseUrl_respond env u options h w :
  baseUrl (snd (respond env u options h w)) = baseUrl w.
Proof. apply (preserves_respond baseUrl env); reflexivity. Qed.

Lemma sync_fetch env endpoint options w :
  sync (snd (fetch env endpoint options w)) = sync w.
Proof. apply (preserves_fetch sync env); reflexivity. Qed.

Lemma session_fetch env endpoint options w :
  session (snd (fetch env endpoint options w)) = session w.
Proof. apply (preserves_fetch session env); reflexivity. Qed.

(** ** Counting the effects of a run *)

Section Bounded.

Context {A B : Type} (p : Effect -> bool).

Lemma bounded_weaken n n' (m : M A) :
  (n <= n')%nat -> bounded p n m -> bounded p n' m.
Proof. intros Hn Hm w. specialize (Hm w). lia. Qed.

Lemma bounded_ret (a : A) : bounded p 0 (ret a).
Proof. intros w. cbn. lia. Qed.

Lemma bounded_throw (e : Exn) : bounded p 0 (@throw A e).
Proof. intros w. cbn. lia. Qed.

Lemma bounded_read (g : World -> A) : bounded p 0 (read g).
Proof. intros w. cbn. lia. Qed.

Lemma bounded_modify (g : World -> World) :
  (forall w, trace (g w) = trace w) -> bounded p 0 (modify g).
Proof. intros H w. cbn. rewrite H. lia. Qed.

Lemma bounded_bind n1 n2 n (m : M A) (k : A -> M B) :
  bounded p n1 m -> (forall a, bounded p n2 (k a)) -> (n1 + n2 <= n)%nat ->
  bounded p n (bind m k).
Proof.
  intros Hm Hk Hn w. unfold bind. specialize (Hm w).
  destruct (m w) as [[a|e|q] w']; cbn [snd] in *; [| lia | lia].
  specialize (Hk a w'). lia.
Qed.

Lemma bounded_try_catch n1 n2 n (m : M A) (h : Exn -> M A) :
  bounded p n1 m -> (forall e, bounded p n2 (h e)) -> (n1 + n2 <= n)%nat ->
  bounded p n (try_catch m h).
Proof.
  intros Hm Hh Hn w. unfold try_catch. specialize (Hm w).
  destruct (m w) as [[a|e|q] w']; cbn [snd] in *; [lia | | lia].
  specialize (Hh e w'). lia.
Qed.

End Bounded.

(** [m >>= k] and [try m catch h], with the shares of the two parts. *)
Tactic Notation "count_bind" constr(n1) constr(n2) "as" ident(x) :=
  apply (bounded_bind _ n1 n2); [| intros x | lia].

Tactic Notation "count_catch" constr(n1) constr(n2) "as" ident(x) :=
  apply (bounded_try_catch _ n1 n2); [| intros x | lia].

(** The requests and refreshes of one [fetch], for a count [p] that gives
    every request the weight [creq], every refresh the weight [cref] and
    every other effect none. *)
Section Cost.

Variable p : Effect -> bool.
Variables creq cref : nat.
Variable env : Env.

Hypothesis p_request : forall r t, count p (NetRequest r :: t) = (creq + count p t)%nat.
Hypothesis p_refresh : forall rt t, count p (NetRefresh rt :: t) = (cref + count p t)%nat.
Hypothesis p_other : forall e t,
  is_request e = false -> is_refresh e = false -> count p (e :: t) = count p t.

Lemma bounded_console_error label e : bounded p 0 (console_error label e).
Proof.
  intros w. unfold console_error, modify. cbn [snd trace log].
  rewrite p_other by reflexivity. lia.
Qed.

Lemma bounded_storage_call area op commit :
  (forall w, trace (commit w) = trace w) -> bounded p 0 (storage_call env area op commit).
Proof.
  intros Hc w. unfold storage_call.
  destruct (env_storage env (storage_calls w)); cbn [snd]; rewrite ?Hc; cbn [trace log];
    rewrite p_other by reflexivity; lia.
Qed.

Lemma bounded_saveTokenData td : bounded p 0 (saveTokenData env td).
Proof.
  unfold saveTokenData. count_catch 0%nat 0%nat as e.
  - count_bind 0%nat 0%nat as x.
    + apply bounded_storage_call. reflexivity.
    + apply bounded_modify. reflexivity.
  - apply bounded_console_error.
Qed.

Lemma bounded_clearTokenData : bounded p 0 (clearTokenData env).
Proof.
  unfold clearTokenData. count_catch 0%nat 0%nat as e.
  - count_bind 0%nat 0%nat as x.
    + apply bounded_storage_call. reflexivity.
    + apply bounded_modify. reflexivity.
  - apply bounded_console_error.
Qed.

Lemma bounded_fetch_refresh : bounded p cref (fetch_refresh env).
Proof.
  intros w. unfold fetch_refresh.
  destruct (env_refresh _ _ _); cbn [snd trace log]; rewrite p_refresh; lia.
Qed.

Lemma bounded_response_json r : bounded p 0 (response_json r).
Proof.
  unfold response_json. destruct (resp_json r); [apply bounded_ret | apply bounded_throw].
Qed.

Lemma bounded_performTokenRefresh : bounded p cref (performTokenRefresh env).
Proof.
  unfold performTokenRefresh. count_catch cref 0%nat as e.
  - count_bind cref 0%nat as r; [apply bounded_fetch_refresh |].
    destruct (negb (ok r)); [apply bounded_throw |].
    count_bind 0%nat 0%nat as j; [apply bounded_response_json |].
    count_bind 0%nat 0%nat as cur; [apply bounded_read |].
    apply bounded_saveTokenData.
  - count_bind 0%nat 0%nat as x; [apply bounded_console_error |].
    count_bind 0%nat 0%nat as y; [apply bounded_clearTokenData |].
    apply bounded_throw.
Qed.

Lemma bounded_refreshAccessToken : bounded p cref (refreshAccessToken env).
Proof.
  intros w. unfold refreshAccessToken.
  destruct (negb (has_refresh_token (tokenData w))); [cbn; lia |].
  destruct (refreshPromise w) as [q|]; [cbn; lia |].
  unfold try_finally.
  pose proof (bounded_performTokenRefresh (set_refreshPromise (Some (refresh_calls w)) w)) as H.
  cbn [trace set_refreshPromise] in H.
  destruct (performTokenRefresh env _) as [[a|e|q] w']; cbn [snd trace set_refreshPromise] in *;
    exact H.
Qed.

Lemma bounded_rotate r : bounded p 0 (rotate env r).
Proof.
  unfold rotate. destruct (resp_headers r !! "X-Access-Token") as [a|]; [| apply bounded_ret].
  destruct (truthy_string a); [| apply bounded_ret].
  count_bind 0%nat 0%nat as cur; [apply bounded_read |].
  apply bounded_saveTokenData.
Qed.

Lemma bounded_send u options h : bounded p creq (send env u options h).
Proof.
  intros w. unfold send.
  destruct (env_fetch _ _ _); cbn [snd trace log]; rewrite p_request; lia.
Qed.

Lemma bounded_prepare_headers options h : bounded p cref (prepare_headers env options h).
Proof.
  unfold prepare_headers. count_bind 0%nat cref as held; [apply bounded_read |].
  destruct (negb (skipAuth options) && bool_decide (is_Some held));
    [| apply (bounded_weaken p 0); [lia | apply bounded_ret]].
  count_bind cref 0%nat as x.
  - destruct (isTokenExpired held (env_now env) && has_refresh_token held);
      [| apply (bounded_weaken p 0); [lia | apply bounded_ret]].
    count_catch cref 0%nat as e; [apply bounded_refreshAccessToken | apply bounded_clearTokenData].
  - count_bind 0%nat 0%nat as td; [apply bounded_read | apply bounded_ret].
Qed.

Lemma bounded_begin_request endpoint options :
  bounded p cref (begin_request env endpoint options).
Proof.
  unfold begin_request, read_settings.
  count_bind 0%nat cref as u.
  - count_bind 0%nat 0%nat as x; [apply bounded_storage_call; reflexivity | apply bounded_read].
  - count_bind 0%nat cref as x; [apply bounded_modify; reflexivity |].
    count_bind cref 0%nat as h; [apply bounded_prepare_headers | apply bounded_ret].
Qed.

Lemma bounded_retry_once u options h :
  bounded p (cref + creq) (retry_once env u options h).
Proof.
  unfold retry_once. count_catch (cref + creq)%nat 0%nat as e.
  - count_bind cref creq as x; [apply bounded_refreshAccessToken |].
    count_bind 0%nat creq as td; [apply bounded_read |].
    count_bind creq 0%nat as r; [apply bounded_send |].
    destruct (negb (status r =? 401)); apply bounded_ret.
  - count_bind 0%nat 0%nat as x; [apply bounded_console_error | apply bounded_ret].
Qed.

Lemma bounded_respond u options h :
  bounded p (creq + (cref + creq)) (respond env u options h).
Proof.
  unfold respond. count_catch (creq + (cref + creq))%nat 0%nat as e.
  - count_bind creq (cref + creq)%nat as r; [apply bounded_send |].
    count_bind 0%nat (cref + creq)%nat as td; [apply bounded_read |].
    destruct ((status r =? 401) && negb (skipRetry options) && has_refresh_token td).
    + count_bind (cref + creq)%nat 0%nat as retried; [apply bounded_retry_once |].
      destruct retried as [rr|]; [apply bounded_ret |].
      count_bind 0%nat 0%nat as x; [apply bounded_clearTokenData | apply bounded_throw].
    + destruct (status r =? 401).
      * count_bind 0%nat 0%nat as x; [apply bounded_clearTokenData | apply bounded_throw].
      * count_bind 0%nat 0%nat as x; [apply bounded_rotate | apply bounded_ret].
  - count_bind 0%nat 0%nat as x; [apply bounded_console_error | apply bounded_throw].
Qed.

Lemma bounded_fetch endpoint options :
  bounded p (2 * creq + 2 * cref) (fetch env endpoint options).
Proof.
  unfold fetch. count_bind cref (creq + (cref + creq))%nat as started;
    [apply bounded_begin_request | apply bounded_respond].
Qed.

End Cost.

Lemma fetch_refreshes_bounded env endpoint options :
  bounded is_refresh 2 (fetch env endpoint options).
Proof.
  apply (bounded_fetch is_refresh 0 1 env).
  - reflexivity.
  - reflexivity.
  - intros e t _ H. cbn. rewrite H. reflexivity.
Qed.

(** ** What every call of [fetch] does *)

Lemma agrees_base options : agrees options (base_headers options).
Proof. intros k _. reflexivity. Qed.

Lemma agrees_bearer options td h : agrees options h -> agrees options (bearer td h).
Proof.
  intros H k Hk. unfold bearer. destruct td as [t|]; [| apply H, Hk].
  destruct (truthy_string (accessToken t)); [| apply H, Hk].
  rewrite lookup_insert_ne by congruence. apply H, Hk.
Qed.

Lemma uniform_request u options h :
  agrees options h -> uniform u options (request_of u options h).
Proof. intros H. unfold uniform, request_of. cbn. auto. Qed.

Lemma prepared_headers_agree env options h :
  agrees options h -> returns (agrees options) (prepare_headers env options h).
Proof.
  intros Hh. unfold prepare_headers.
  apply (returns_bind (fun _ => True)); [apply returns_any |].
  intros held _. destruct (negb (skipAuth options) && bool_decide (is_Some held));
    [| apply returns_ret; exact Hh].
  apply (returns_bind (fun _ => True)); [apply returns_any |].
  intros _ _. apply (returns_bind (fun _ => True)); [apply returns_any |].
  intros td _. apply returns_ret. apply agrees_bearer, Hh.
Qed.

(** Past the settings read, the first half of [fetch] is its proactive step. *)
Lemma begin_request_run env endpoint options w :
  env_storage env (storage_calls w) = None ->
  begin_request env endpoint options w =
  match prepare_headers env options (base_headers options)
          (set_baseUrl (configured_url w) (log (StorageOp "sync" "get") w)) with
  | (Ok h, w1) => (Ok (target (configured_url w) endpoint, h), w1)
  | (Throw e, w1) => (Throw e, w1)
  | (Blocked p, w1) => (Blocked p, w1)
  end.
Proof.
  intros Hs. unfold begin_request, read_settings.
  unfold bind at 1. unfold bind at 1. unfold storage_call. rewrite Hs.
  unfold read at 1, id. unfold bind at 1, modify at 1. unfold bind at 1.
  change (configured_url (log (StorageOp "sync" "get") w)) with (configured_url w).
  destruct (prepare_headers env options (base_headers options) _) as [[h|e|p] w1]; reflexivity.
Qed.

(** The proactive step swallows the failure of its refresh. *)
Lemma prepare_headers_no_throw env options h w e :
  fst (prepare_headers env options h w) <> Throw e.
Proof.
  unfold prepare_headers, bind at 1, read at 1.
  destruct (negb (skipAuth options) && bool_decide (is_Some (tokenData w))); [| discriminate].
  unfold bind at 1.
  destruct (isTokenExpired (tokenData w) (env_now env) && has_refresh_token (tokenData w)).
  - unfold try_catch.
    destruct (refreshAccessToken env w) as [[[]|e'|p] w3]; cbn; try discriminate.
    rewrite clearTokenData_run. cbn. discriminate.
  - cbn. discriminate.
Qed.

(** The first half of [fetch] fixes the target, and headers that agree with
    the caller's. *)
Lemma begin_request_result env endpoint options w u h w1 :
  begin_request env endpoint options w = (Ok (u, h), w1) ->
  u = target (configured_url w) endpoint /\ agrees options h.
Proof.
  destruct (env_storage env (storage_calls w)) as [e|] eqn:Hs.
  - unfold begin_request, read_settings, bind, storage_call. rewrite Hs. discriminate.
  - rewrite (begin_request_run _ _ _ _ Hs).
    destruct (prepare_headers env options (base_headers options) _) as [[h'|e|p] w2] eqn:E;
      try discriminate.
    intros H. inversion H; subst. split; [reflexivity |].
    exact (prepared_headers_agree env options _ (agrees_base options) _ _ _ E).
Qed.

(** With no refresh due, the first half reads the settings and attaches the
    bearer of the token held. *)
Lemma begin_request_fresh env endpoint options w :
  env_storage env (storage_calls w) = None ->
  no_refresh_due env w ->
  begin_request env endpoint options w =
  (Ok (target (configured_url w) endpoint, first_headers options (tokenData w)),
   set_baseUrl (configured_url w) (log (StorageOp "sync" "get") w)).
Proof.
  intros Hs Hd. rewrite (begin_request_run _ _ _ _ Hs).
  unfold prepare_headers, first_headers. unfold bind at 1, read at 1. wsimpl.
  unfold no_refresh_due in Hd.
  destruct (skipAuth options); cbn [negb andb]; [reflexivity |].
  destruct (tokenData w) as [t|] eqn:Ht.
  - rewrite bool_decide_eq_true_2 by eauto. rewrite Hd.
    unfold bind, ret, read. wsimpl. rewrite Ht. reflexivity.
  - rewrite bool_decide_eq_false_2 by (intros [? ?]; discriminate). reflexivity.
Qed.

(** The second half when the first answer is not a 401. *)
Lemma respond_run_ok env u options h w r :
  env_fetch env (request_calls w) (request_of u options h) = Resolved r ->
  status r <> 401 ->
  respond env u options h w =
  (Ok r, snd (rotate env r (log (NetRequest (request_of u options h)) w))).
Proof.
  intros Hf Hst. apply Z.eqb_neq in Hst.
  unfold respond, try_catch, bind at 1, send. rewrite Hf.
  unfold bind at 1, read at 1. rewrite Hst. cbn [andb].
  unfold bind at 1. rewrite rotate_run. reflexivity.
Qed.

(** The second half sends the request, and resends it at most once, with
    the bearer of the token then held. *)
Lemma respond_requests env u options h w :
  exists rest,
    sent_requests (trace (snd (respond env u options h w))) =
      (sent_requests (trace w) ++ request_of u options h :: rest)%list /\
    (rest = [] \/ exists td, rest = [request_of u options (bearer td h)]).
Proof.
  remember (respond env u options h w) as out eqn:Hout.
  unfold respond in Hout. mnorm Hout. unfold send at 1 in Hout.
  set (w2 := log (NetRequest (request_of u options h)) w) in *.
  assert (S2 : sent_requests (trace w2) =
               (sent_requests (trace w) ++ [request_of u options h])%list) by reflexivity.
  destruct (env_fetch env (request_calls w) (request_of u options h)) as [r|e].
  - mnorm Hout.
    destruct ((status r =? 401) && negb (skipRetry options) &&
              has_refresh_token (tokenData w2)).
    + unfold retry_once in Hout. mnorm Hout.
      pose proof (sent_refreshAccessToken env w2) as S3.
      destruct (refreshAccessToken env w2) as [[[]|e|p] w3]; cbn [snd] in S3.
      * mnorm Hout. unfold send at 1 in Hout.
        set (again := request_of u options (bearer (tokenData w3) h)) in *.
        exists [again]. split; [| right; exists (tokenData w3); reflexivity].
        destruct (env_fetch env (request_calls w3) again) as [r1|e1]; mnorm Hout.
        -- destruct (negb (status r1 =? 401)); mnorm Hout.
           ++ subst out. wsimpl. rewrite S3, S2, <- app_assoc. reflexivity.
           ++ rewrite clearTokenData_run in Hout. mnorm Hout. subst out. wsimpl.
              rewrite sent_clearTokenData. wsimpl. rewrite S3, S2, <- app_assoc. reflexivity.
        -- rewrite clearTokenData_run in Hout. mnorm Hout. subst out. wsimpl.
           rewrite sent_clearTokenData. wsimpl. rewrite S3, S2, <- app_assoc. reflexivity.
      * exists []. split; [| left; reflexivity].
        mnorm Hout. rewrite clearTokenData_run in Hout. mnorm Hout. subst out. wsimpl.
        rewrite sent_clearTokenData. wsimpl. rewrite S3, S2. reflexivity.
      * exists []. split; [| left; reflexivity].
        mnorm Hout. subst out. wsimpl. rewrite S3, S2. reflexivity.
    + exists []. split; [| left; reflexivity].
      destruct (status r =? 401); mnorm Hout.
      * rewrite clearTokenData_run in Hout. mnorm Hout. subst out. wsimpl.
        rewrite sent_clearTokenData. exact S2.
      * rewrite rotate_run in Hout. mnorm Hout. subst out. wsimpl.
        rewrite sent_rotate. exact S2.
  - exists []. split; [| left; reflexivity].
    mnorm Hout. subst out. wsimpl. reflexivity.
Qed.

Lemma retry_once_not_401 env u options h :
  returns (fun o => forall r, o = Some r -> status r <> 401) (retry_once env u options h).
Proof.
  unfold retry_once. apply returns_try_catch.
  - apply (returns_bind (fun _ => True)); [apply returns_any |].
    intros _ _. apply (returns_bind (fun _ => True)); [apply returns_any |].
    intros td _. apply (returns_bind (fun _ => True)); [apply returns_any |].
    intros r _. destruct (status r =? 401) eqn:Hs; cbn [negb]; apply returns_ret.
    + intros r' H; discriminate H.
    + intros r' H. inversion H; subst. apply Z.eqb_neq. exact Hs.
  - intros e. apply (returns_bind (fun _ => True)); [apply returns_any |].
    intros _ _. apply returns_ret. intros r' H; discriminate H.
Qed.

Lemma respond_not_401 env u options h :
  returns (fun r => status r <> 401) (respond env u options h).
Proof.
  unfold respond. apply returns_try_catch.
  - apply (returns_bind (fun _ => True)); [apply returns_any |].
    intros r _. apply (returns_bind (fun _ => True)); [apply returns_any |].
    intros td _.
    destruct ((status r =? 401) && negb (skipRetry options) && has_refresh_token td).
    + apply (returns_bind (fun o => forall r, o = Some r -> status r <> 401));
        [apply retry_once_not_401 |].
      intros [rr|] Hrr.
      * apply returns_ret. apply Hrr. reflexivity.
      * apply (returns_bind (fun _ => True)); [apply returns_any |].
        intros _ _. apply returns_throw.
    + destruct (status r =? 401) eqn:Hs.
      * apply (returns_bind (fun _ => True)); [apply returns_any |].
        intros _ _. apply returns_throw.
      * apply (returns_bind (fun _ => True)); [apply returns_any |].
        intros _ _. apply returns_ret. apply Z.eqb_neq. exact Hs.
  - intros e. apply (returns_bind (fun _ => True)); [apply returns_any |].
    intros _ _. apply returns_throw.
Qed.

Lemma fetch_not_401 env endpoint options :
  returns (fun r => status r <> 401) (fetch env endpoint options).
Proof.
  unfold fetch. apply (returns_bind (fun _ => True)); [apply returns_any |].
  intros started _. apply respond_not_401.
Qed.

(** X1: [fetch] never hands a 401 response to its caller: a response it
    resolves with has another status, whether it comes from the first send
    or from the retry. *)
Theorem fetch_never_resolves_with_401 :
  forall (env : Env) (endpoint : string) (options : EdgeFetchOptions) (w : World) (r : Response),
    fst (fetch env endpoint options w) = Ok r -> status r <> 401.
Proof.
  intros env endpoint options w r H.
  destruct (fetch env endpoint options w) as [res w'] eqn:E. cbn [fst] in H. subst res.
  exact (fetch_not_401 env endpoint options _ _ _ E).
Qed.

(** X1, an instance: a request the server answers 200. *)
Lemma fetch_never_resolves_with_401_witness :
  fst (fetch Scenario.serving "/api/data" default_options (Scenario.world None))
    = Ok (Scenario.reply 200 ∅ ∅) /\
  (status (Scenario.reply 200 ∅ ∅) =? 401) = false.
Proof.
  split; [reflexivity |].
  apply Z.eqb_neq.
  apply (fetch_never_resolves_with_401 Scenario.serving "/api/data" default_options
           (Scenario.world None)).
  reflexivity.
Defined.

(** The requests of one call: two at most, all to the same target and
    alike but for the bearer. *)
Lemma fetch_requests_uniform env endpoint options w :
  exists l,
    sent_by (fetch env endpoint options) w l /\
    (length l <= 2)%nat /\
    Forall (uniform (target (configured_url w) endpoint) options) l /\
    (forall r, fst (fetch env endpoint options w) = Ok r -> (1 <= length l)%nat).
Proof.
  pose proof (sent_begin_request env endpoint options w) as Sb.
  unfold sent_by, fetch, bind.
  destruct (begin_request env endpoint options w) as [[[u h]|e|p] w1] eqn:E; cbn [fst snd] in *.
  - destruct (begin_request_result _ _ _ _ _ _ _ E) as (-> & Hh).
    destruct (respond_requests env (target (configured_url w) endpoint) options h w1)
      as (rest & Hsent & Hrest).
    exists (request_of (target (configured_url w) endpoint) options h :: rest).
    rewrite Hsent, Sb. split; [reflexivity |].
    destruct Hrest as [-> | [td ->]]; cbn [length].
    + split; [lia |]. split; [| intros; lia].
      constructor; [apply uniform_request, Hh | constructor].
    + split; [lia |]. split; [| intros; lia].
      constructor; [apply uniform_request, Hh |].
      constructor; [apply uniform_request, agrees_bearer, Hh | constructor].
  - exists []. rewrite app_nil_r. split; [exact Sb |]. split; [cbn; lia |].
    split; [constructor | intros r H; discriminate H].
  - exists []. rewrite app_nil_r. split; [exact Sb |]. split; [cbn; lia |].
    split; [constructor | intros r H; discriminate H].
Qed.

(** X2: one call of [fetch] sends at most two requests and makes at most
    two refresh calls. Every request it sends goes to the same target, the
    endpoint resolved against the configured URL, with the caller's method
    and body and with headers that differ from the caller's (completed by
    the default content type) in the [Authorization] entry at most; a call
    that resolves has sent at least one. *)
Theorem fetch_sends_at_most_twice :
  forall (env : Env) (endpoint : string) (options : EdgeFetchOptions) (w : World),
    (exists l,
       sent_by (fetch env endpoint options) w l /\
       (length l <= 2)%nat /\
       Forall (uniform (target (configured_url w) endpoint) options) l /\
       (forall r, fst (fetch env endpoint options w) = Ok r -> (1 <= length l)%nat)) /\
    (refresh_calls w <= refresh_calls (snd (fetch env endpoint options w))
       <= refresh_calls w + 2)%nat.
Proof.
  intros env endpoint options w.
  split; [apply fetch_requests_uniform | apply fetch_refreshes_bounded].
Qed.

(** Both bounds are reached: an expired token is refreshed, the request is
    answered 401, and the token is refreshed again before the resend. *)
Example fetch_two_requests_two_refreshes :
  request_calls (snd (fetch Scenario.rejecting "/api/data" default_options
                        (Scenario.world (Some Scenario.stale)))) = 2%nat /\
  refresh_calls (snd (fetch Scenario.rejecting "/api/data" default_options
                        (Scenario.world (Some Scenario.stale)))) = 2%nat.
Proof. split; vm_compute; reflexivity. Qed.

(** X3: how [fetch] rejects. When [chrome.storage.sync.get] rejects, the
    call rejects with that error before anything else happens: no request is
    sent, nothing is logged through [console.error], the token and the base
    URL are untouched. Every other rejection comes out of the [try] block
    and is logged as "Edge fetch error:" just before it reaches the caller. *)
Theorem fetch_rejections :
  forall (env : Env) (endpoint : string) (options : EdgeFetchOptions) (w : World),
    (forall e, env_storage env (storage_calls w) = Some e ->
       fetch env endpoint options w = (Throw e, log (StorageOp "sync" "get") w)) /\
    (env_storage env (storage_calls w) = None ->
     forall e, fst (fetch env endpoint options w) = Throw e ->
       exists w1, snd (fetch env endpoint options w) =
                    log (ConsoleError "Edge fetch error:" e) w1).
Proof.
  intros env endpoint options w. split.
  - intros e H.
    unfold fetch, begin_request, read_settings, bind, storage_call. rewrite H. reflexivity.
  - intros Hs e. unfold fetch, bind. rewrite (begin_request_run _ _ _ _ Hs).
    pose proof (prepare_headers_no_throw env options (base_headers options)
                  (set_baseUrl (configured_url w) (log (StorageOp "sync" "get") w))) as Hn.
    destruct (prepare_headers env options (base_headers options) _) as [[h|e'|p] w1];
      cbn [fst snd] in *.
    + unfold respond, try_catch.
      match goal with |- context [match ?m w1 with _ => _ end] =>
        destruct (m w1) as [[r|e'|p] w2] end; cbn [fst snd]; intros H; try discriminate H.
      unfold bind, console_error, modify, throw in *. cbn [fst snd] in *.
      inversion H; subst. exists w2. reflexivity.
    + exfalso. apply (Hn e'). reflexivity.
    + intros H. discriminate H.
Qed.

(** Once the settings are read, the client's base URL is the configured one. *)
Lemma fetch_baseUrl env endpoint options w :
  env_storage env (storage_calls w) = None ->
  baseUrl (snd (fetch env endpoint options w)) = configured_url w.
Proof.
  intros Hs. unfold fetch, bind. rewrite (begin_request_run _ _ _ _ Hs).
  pose proof (baseUrl_prepare_headers env options (base_headers options)
                (set_baseUrl (configured_url w) (log (StorageOp "sync" "get") w))) as Hb.
  destruct (prepare_headers env options (base_headers options) _) as [[h|e|p] w1];
    cbn [fst snd] in *; try exact Hb.
  rewrite baseUrl_respond. exact Hb.
Qed.

(** X4: the setting stored under [edgeApiUrl] decides where requests go.
    After [updateBaseUrl(newUrl)], the requests of the next [fetch] go to
    the stored URL when there is one, and to [newUrl] only when there is
    none; an endpoint starting with "http" is used as it is. The client's
    base URL follows. *)
Theorem stored_url_overrides_updateBaseUrl :
  forall (env : Env) (endpoint : string) (options : EdgeFetchOptions) (newUrl : string)
         (w : World),
    env_storage env (storage_calls w) = None ->
    forall edgeApiUrl,
      (sync w !! "edgeApiUrl" = Some (StoredText edgeApiUrl) \/
       sync w !! "edgeApiUrl" = None /\ edgeApiUrl = newUrl) ->
      baseUrl (snd (fetch env endpoint options
                      (snd (EdgeFetchClient.updateBaseUrl newUrl w)))) = edgeApiUrl /\
      exists l,
        sent_by (fetch env endpoint options) (snd (EdgeFetchClient.updateBaseUrl newUrl w)) l /\
        Forall (fun r => url r = if String.prefix "http" endpoint then endpoint
                                 else edgeApiUrl +:+ endpoint) l.
Proof.
  intros env endpoint options newUrl w Hs edgeApiUrl Hu.
  set (w1 := snd (EdgeFetchClient.updateBaseUrl newUrl w)).
  assert (Hc : configured_url w1 = edgeApiUrl).
  { unfold configured_url, w1. cbn.
    destruct Hu as [-> | [-> ->]]; reflexivity. }
  split.
  - rewrite fetch_baseUrl by exact Hs. exact Hc.
  - destruct (fetch_requests_uniform env endpoint options w1) as (l & Hl & _ & Hu' & _).
    exists l. split; [exact Hl |].
    rewrite Hc in Hu'. eapply Forall_impl; [exact Hu' |].
    intros r (Hr & _). exact Hr.
Qed.

(** X4, an instance: nothing is stored, the new URL is used. *)
Lemma stored_url_overrides_updateBaseUrl_witness :
  baseUrl (snd (fetch Scenario.serving "/api/data" default_options
                  (snd (EdgeFetchClient.updateBaseUrl "https://edge.example"
                          (Scenario.world None))))) = "https://edge.example" /\
  url <$> sent_requests
            (trace (snd (fetch Scenario.serving "/api/data" default_options
                           (snd (EdgeFetchClient.updateBaseUrl "https://edge.example"
                                   (Scenario.world None))))))
    = ["https://edge.example/api/data"].
Proof.
  split; [| vm_compute; reflexivity].
  apply (stored_url_overrides_updateBaseUrl Scenario.serving "/api/data" default_options
           "https://edge.example" (Scenario.world None) eq_refl "https://edge.example").
  right. split; reflexivity.
Defined.

(** X5: the headers of the first send, when no refresh is due. The content
    type is the caller's, or "application/json" when the caller gives none;
    the [Authorization] entry is the bearer of the access token held, unless
    [skipAuth] is set or no access token is held, in which case it is the
    caller's own entry; every other header is the caller's. *)
Theorem first_request_headers :
  forall (env : Env) (endpoint : string) (options : EdgeFetchOptions) (w : World),
    env_storage env (storage_calls w) = None ->
    no_refresh_due env w ->
    exists rq rest,
      sent_by (fetch env endpoint options) w (rq :: rest) /\
      headers rq !! "Content-Type" =
        Some (default "application/json" (opt_headers options !! "Content-Type")) /\
      headers rq !! "Authorization" =
        (if negb (skipAuth options) && has_access_token (tokenData w)
         then (fun t => "Bearer " +:+ accessToken t) <$> tokenData w
         else opt_headers options !! "Authorization") /\
      forall k, k <> "Content-Type" -> k <> "Authorization" ->
                headers rq !! k = opt_headers options !! k.
Proof.
  intros env endpoint options w Hs Hd.
  pose proof (begin_request_fresh env endpoint options w Hs Hd) as Hb.
  unfold sent_by. rewrite (fetch_after_begin _ _ _ _ _ _ _ Hb).
  destruct (respond_requests env (target (configured_url w) endpoint) options
              (first_headers options (tokenData w))
              (set_baseUrl (configured_url w) (log (StorageOp "sync" "get") w)))
    as (rest & Hsent & _).
  exists (request_of (target (configured_url w) endpoint) options
            (first_headers options (tokenData w))), rest.
  split; [exact Hsent |].
  unfold request_of. cbn [headers].
  assert (Hbase_ct : base_headers options !! "Content-Type" =
                     Some (default "application/json" (opt_headers options !! "Content-Type"))).
  { unfold base_headers. rewrite lookup_union.
    destruct (opt_headers options !! "Content-Type") as [c|]; cbn;
      rewrite lookup_singleton_eq; reflexivity. }
  assert (Hbase_other : forall k, k <> "Content-Type" ->
                                  base_headers options !! k = opt_headers options !! k).
  { intros k Hk. unfold base_headers. rewrite lookup_union.
    rewrite lookup_singleton_ne by congruence.
    destruct (opt_headers options !! k); reflexivity. }
  unfold first_headers, has_access_token.
  destruct (skipAuth options); cbn [negb andb].
  - split; [exact Hbase_ct |]. split; [apply Hbase_other; discriminate |].
    intros k Hk _. apply Hbase_other, Hk.
  - unfold bearer. destruct (tokenData w) as [t|]; cbn [fmap option_fmap option_map].
    + destruct (truthy_string (accessToken t)).
      * split; [rewrite lookup_insert_ne by discriminate; exact Hbase_ct |].
        split; [apply lookup_insert_eq |].
        intros k Hk Hk'. rewrite lookup_insert_ne by congruence. apply Hbase_other, Hk.
      * split; [exact Hbase_ct |]. split; [apply Hbase_other; discriminate |].
        intros k Hk _. apply Hbase_other, Hk.
    + split; [exact Hbase_ct |]. split; [apply Hbase_other; discriminate |].
      intros k Hk _. apply Hbase_other, Hk.
Qed.

(** X5, an instance: a client holding the access token "A". *)
Lemma first_request_headers_witness :
  exists rq rest,
    sent_by (fetch Scenario.serving "/api/data" default_options)
      (Scenario.world (Some Scenario.held)) (rq :: rest) /\
    headers rq !! "Authorization" = Some "Bearer A" /\
    headers rq !! "Content-Type" = Some "application/json".
Proof.
  destruct (first_request_headers Scenario.serving "/api/data" default_options
              (Scenario.world (Some Scenario.held)) eq_refl eq_refl)
    as (rq & rest & H1 & H2 & H3 & _).
  exists rq, rest. split; [exact H1 |]. split; [exact H3 | exact H2].
Defined.

(** ** The token from one call to the next *)

(** X6: an access token pushed in the headers of a response that is not a
    401 is the bearer of the next call. When the first answer of a call
    carries a non-empty [X-Access-Token] (and no expiry) and the store
    accepts the write, [fetch] resolves with that answer, the cache holds
    the new access token with the refresh token of [X-Refresh-Token] if the
    answer has a non-empty one and the old refresh token otherwise, and the
    first request of the following call carries the new bearer. *)
Theorem rotated_token_is_next_bearer :
  forall (env : Env) (endpoint1 endpoint2 : string) (options1 options2 : EdgeFetchOptions)
         (w : World) (r : Response) (a : string),
    no_refresh_due env w ->
    env_storage env (storage_calls w) = None ->
    env_fetch env (request_calls w)
      (request_of (target (configured_url w) endpoint1) options1
         (first_headers options1 (tokenData w))) = Resolved r ->
    status r <> 401 ->
    resp_headers r !! "X-Access-Token" = Some a ->
    truthy_string a = true ->
    resp_headers r !! "X-Token-Expires-At" = None ->
    env_storage env (S (storage_calls w)) = None ->
    env_storage env (S (S (storage_calls w))) = None ->
    skipAuth options2 = false ->
    fst (fetch env endpoint1 options1 w) = Ok r /\
    tokenData (snd (fetch env endpoint1 options1 w)) =
      Some {| accessToken := a;
              refreshToken := or_else (resp_headers r !! "X-Refresh-Token")
                                      (tokenData w ≫= refreshToken);
              expiresAt := None |} /\
    exists rq rest,
      sent_by (fetch env endpoint2 options2) (snd (fetch env endpoint1 options1 w))
        (rq :: rest) /\
      headers rq !! "Authorization" = Some ("Bearer " +:+ a).
Proof.
  intros env endpoint1 endpoint2 options1 options2 w r a Hd Hs0 Hf Hst Ha Hta Hexp Hs1 Hs2 Hskip.
  pose proof (begin_request_fresh env endpoint1 options1 w Hs0 Hd) as Hb.
  unfold sent_by. rewrite (fetch_after_begin _ _ _ _ _ _ _ Hb).
  rewrite (respond_run_ok _ _ _ _ _ r); [| exact Hf | exact Hst].
  cbn [fst snd].
  set (w1 := log (NetRequest _) _).
  assert (Hw : snd (rotate env r w1) =
               set_tokenData
                 (Some {| accessToken := a;
                          refreshToken := or_else (resp_headers r !! "X-Refresh-Token")
                                                  (tokenData w ≫= refreshToken);
                          expiresAt := None |})
                 (set_local (<["tokenData" :=
                                StoredToken {| accessToken := a;
                                               refreshToken :=
                                                 or_else (resp_headers r !! "X-Refresh-Token")
                                                         (tokenData w ≫= refreshToken);
                                               expiresAt := None |}]> (local w1))
                    (log (StorageOp "local" "set") w1))).
  { unfold rotate. rewrite Ha, Hta, Hexp. unfold bind, read.
    rewrite saveTokenData_run. cbn [snd]. rewrite saveTokenData_world.
    change (storage_calls w1) with (S (storage_calls w)). rewrite Hs1. reflexivity. }
  rewrite Hw. split; [reflexivity |]. split; [reflexivity |].
  set (w2 := set_tokenData _ _).
  assert (Hd2 : no_refresh_due env w2) by reflexivity.
  assert (Hs2' : env_storage env (storage_calls w2) = None) by exact Hs2.
  pose proof (begin_request_fresh env endpoint2 options2 w2 Hs2' Hd2) as Hb2.
  rewrite (fetch_after_begin _ _ _ _ _ _ _ Hb2).
  destruct (respond_requests env (target (configured_url w2) endpoint2) options2
              (first_headers options2 (tokenData w2))
              (set_baseUrl (configured_url w2) (log (StorageOp "sync" "get") w2)))
    as (rest & Hsent & _).
  eexists _, rest. split; [exact Hsent |].
  unfold request_of, first_headers. cbn [headers]. rewrite Hskip.
  unfold bearer, w2. cbn [tokenData set_tokenData accessToken]. rewrite Hta.
  apply lookup_insert_eq.
Qed.

(** X6, an instance: a client without a token is handed "T2" on its first
    call and presents it on the second. *)
Lemma rotated_token_is_next_bearer_witness :
  tokenData (snd (fetch Scenario.rotating "/api/a" default_options (Scenario.world None))) =
    Some {| accessToken := "T2"; refreshToken := None; expiresAt := None |} /\
  Scenario.authorizations
    (snd (fetch Scenario.rotating "/api/b" default_options
            (snd (fetch Scenario.rotating "/api/a" default_options (Scenario.world None)))))
    = [None; Some "Bearer T2"].
Proof.
  split; [| vm_compute; reflexivity].
  destruct (rotated_token_is_next_bearer Scenario.rotating "/api/a" "/api/b"
              default_options default_options (Scenario.world None)
              (Scenario.reply 200 {["X-Access-Token" := "T2"]} ∅) "T2"
              eq_refl eq_refl eq_refl) as (_ & H & _);
    [discriminate | reflexivity | reflexivity | reflexivity | reflexivity | reflexivity
    | reflexivity | exact H].
Defined.

(** X7: the proactive refresh. When the token held is expired and can be
    refreshed, [fetch] refreshes it before sending anything: with a refresh
    answer that carries a non-empty access token and a store that accepts
    the write, the token of the answer is in the cache and in the store when
    the request goes out, one refresh call has been made, and the request
    carries the new bearer. *)
Theorem proactive_refresh_attaches_new_bearer :
  forall (env : Env) (endpoint : string) (options : EdgeFetchOptions) (w : World)
         (td : TokenData) (j : gmap string string) (a : string),
    skipAuth options = false ->
    refreshPromise w = None ->
    tokenData w = Some td ->
    isTokenExpired (Some td) (env_now env) = true ->
    has_refresh_token (Some td) = true ->
    env_storage env (storage_calls w) = None ->
    refresh_reply (env_refresh env (refresh_calls w) (refreshToken td)) = inl j ->
    j !! "accessToken" = Some a ->
    truthy_string a = true ->
    env_storage env (S (storage_calls w)) = None ->
    (exists h w1,
       begin_request env endpoint options w =
         (Ok (target (configured_url w) endpoint, h), w1) /\
       h !! "Authorization" = Some ("Bearer " +:+ a) /\
       tokenData w1 = Some (refreshed_token env j (Some td)) /\
       local w1 !! "tokenData" = Some (StoredToken (refreshed_token env j (Some td))) /\
       refresh_calls w1 = S (refresh_calls w) /\
       request_calls w1 = request_calls w) /\
    exists rq rest,
      sent_by (fetch env endpoint options) w (rq :: rest) /\
      headers rq !! "Authorization" = Some ("Bearer " +:+ a).
Proof.
  intros env endpoint options w td j a Hskip Hm Htd Hexp Href Hs0 Hr Ha Hta Hs1.
  assert (Hb : exists h w1,
             begin_request env endpoint options w =
               (Ok (target (configured_url w) endpoint, h), w1) /\
             h !! "Authorization" = Some ("Bearer " +:+ a) /\
             tokenData w1 = Some (refreshed_token env j (Some td)) /\
             local w1 !! "tokenData" = Some (StoredToken (refreshed_token env j (Some td))) /\
             refresh_calls w1 = S (refresh_calls w) /\
             request_calls w1 = request_calls w /\
             sent_requests (trace w1) = sent_requests (trace w)).
  { rewrite (begin_request_run _ _ _ _ Hs0).
    set (w0 := set_baseUrl _ _).
    assert (Hm0 : refreshPromise w0 = None) by exact Hm.
    assert (Ht0 : has_refresh_token (tokenData w0) = true)
      by (unfold w0; wsimpl; rewrite Htd; exact Href).
    remember (prepare_headers env options (base_headers options) w0) as out eqn:Hout.
    unfold prepare_headers in Hout. mnorm Hout.
    replace (tokenData w0) with (Some td) in Hout by (symmetry; exact Htd).
    rewrite Hskip, Hexp, Href in Hout.
    rewrite bool_decide_eq_true_2 in Hout by eauto. cbn [negb andb] in Hout.
    rewrite (refreshAccessToken_run _ _ Hm0 Ht0) in Hout.
    rewrite performTokenRefresh_succeeded with (j := j) in Hout
      by (unfold w0, refresh_calls; wsimpl; rewrite Htd; exact Hr).
    cbn [fst snd] in Hout. rewrite saveTokenData_world in Hout.
    unfold storage_calls, refresh_calls, request_calls in *. unfold w0 in Hout. wsimpl.
    rewrite Hs1 in Hout. wsimpl. rewrite Htd in Hout. subst out.
    eexists _, _. split; [reflexivity |]. wsimpl.
    split.
    { unfold bearer, refreshed_token. cbn [accessToken]. rewrite Ha. cbn.
      rewrite Hta. apply lookup_insert_eq. }
    split; [reflexivity |]. split; [apply lookup_insert_eq |].
    split; [reflexivity |]. split; reflexivity. }
  destruct Hb as (h & w1 & Hb & Hh & Ht1 & Hl1 & Hr1 & Hq1 & Hsent1).
  split; [exists h, w1; repeat split; assumption |].
  unfold sent_by. rewrite (fetch_after_begin _ _ _ _ _ _ _ Hb).
  destruct (respond_requests env (target (configured_url w) endpoint) options h w1)
    as (rest & Hsent & _).
  exists (request_of (target (configured_url w) endpoint) options h), rest.
  rewrite Hsent, Hsent1. split; [reflexivity | exact Hh].
Qed.

(** X7, an instance: the stale token "A" is replaced by "B" before the
    request is sent. *)
Lemma proactive_refresh_attaches_new_bearer_witness :
  Scenario.authorizations
    (snd (fetch Scenario.serving "/api/data" default_options
            (Scenario.world (Some Scenario.stale)))) = [Some "Bearer B"] /\
  exists rq rest,
    sent_by (fetch Scenario.serving "/api/data" default_options)
      (Scenario.world (Some Scenario.stale)) (rq :: rest) /\
    headers rq !! "Authorization" = Some "Bearer B".
Proof.
  split; [vm_compute; reflexivity |].
  exact (proj2 (proactive_refresh_attaches_new_bearer Scenario.serving "/api/data"
                  default_options (Scenario.world (Some Scenario.stale)) Scenario.stale
                  {["accessToken" := "B"]} "B"
                  eq_refl eq_refl eq_refl eq_refl eq_refl eq_refl eq_refl eq_refl eq_refl
                  eq_refl)).
Defined.

(** X8: a refresh that succeeds leaves the client able to refresh again.
    The refresh token held afterwards is the one of the answer when the
    answer carries a non-empty one, and the old one otherwise; the access
    token is the answer's, and an answer without one is accepted all the
    same, leaving no usable access token. When the store rejects the write
    the token held stays as it was. *)
Theorem refresh_keeps_the_refresh_token :
  forall (env : Env) (w : World) (j : gmap string string),
    refreshPromise w = None ->
    has_refresh_token (tokenData w) = true ->
    refresh_reply (env_refresh env (refresh_calls w) (tokenData w ≫= refreshToken)) = inl j ->
    fst (refreshAccessToken env w) = Ok tt /\
    has_refresh_token (tokenData (snd (refreshAccessToken env w))) = true /\
    (env_storage env (storage_calls w) = None ->
     (tokenData (snd (refreshAccessToken env w)) ≫= refreshToken) =
       (if truthy_opt_string (j !! "refreshToken") then j !! "refreshToken"
        else tokenData w ≫= refreshToken) /\
     (forall a, j !! "accessToken" = Some a ->
        accessToken <$> tokenData (snd (refreshAccessToken env w)) = Some a) /\
     (j !! "accessToken" = None ->
        has_access_token (tokenData (snd (refreshAccessToken env w))) = false)) /\
    (forall e, env_storage env (storage_calls w) = Some e ->
     tokenData (snd (refreshAccessToken env w)) = tokenData w).
Proof.
  intros env w j Hm Ht Hj.
  destruct (refreshAccessToken_effect env w Hm Ht) as (_ & _ & _ & _ & _ & E).
  rewrite Hj in E. destruct E as [E1 E2].
  split; [exact E1 |]. rewrite E2.
  destruct (env_storage env (storage_calls w)) as [e|].
  - split; [exact Ht |]. split; [intros H; discriminate H | intros; reflexivity].
  - split; [apply refreshed_token_keeps_refresh, Ht |].
    split; [| intros e H; discriminate H].
    intros _. split; [reflexivity |]. split.
    + intros a Ha. unfold refreshed_token. cbn. rewrite Ha. reflexivity.
    + intros Ha. unfold refreshed_token, has_access_token. cbn. rewrite Ha. reflexivity.
Qed.

(** X8, an instance: the answer carries only an access token; the refresh
    token "R" is kept. *)
Lemma refresh_keeps_the_refresh_token_witness :
  fst (refreshAccessToken Scenario.serving (Scenario.world (Some Scenario.held))) = Ok tt /\
  tokenData (snd (refreshAccessToken Scenario.serving (Scenario.world (Some Scenario.held))))
    ≫= refreshToken = Some "R".
Proof.
  destruct (refresh_keeps_the_refresh_token Scenario.serving
              (Scenario.world (Some Scenario.held)) {["accessToken" := "B"]}
              eq_refl eq_refl eq_refl) as (H1 & _ & H2 & _).
  split; [exact H1 |]. exact (proj1 (H2 eq_refl)).
Defined.

(** X9: a refresh that fails signs the client out. The error of the refresh
    reaches the caller; once the store has accepted the removal, no token is
    held in memory and neither [tokenData] nor [authToken] is left in the
    local store; nothing stays in flight; and a further call of
    [refreshAccessToken] is refused with "No refresh token available"
    without touching the network. *)
Theorem failed_refresh_signs_out :
  forall (env : Env) (w : World) (err : Exn),
    refreshPromise w = None ->
    has_refresh_token (tokenData w) = true ->
    refresh_reply (env_refresh env (refresh_calls w) (tokenData w ≫= refreshToken)) = inr err ->
    env_storage env (storage_calls w) = None ->
    fst (refreshAccessToken env w) = Throw err /\
    tokenData (snd (refreshAccessToken env w)) = None /\
    local (snd (refreshAccessToken env w)) !! "tokenData" = None /\
    local (snd (refreshAccessToken env w)) !! "authToken" = None /\
    refreshPromise (snd (refreshAccessToken env w)) = None /\
    refreshAccessToken env (snd (refreshAccessToken env w)) =
      (Throw (JsError "No refresh token available"), snd (refreshAccessToken env w)).
Proof.
  intros env w err Hm Ht Hr Hs.
  rewrite (refreshAccessToken_run _ _ Hm Ht).
  rewrite performTokenRefresh_failed with (err := err) by exact Hr.
  cbn [fst snd]. rewrite clearTokenData_world.
  unfold storage_calls in *. wsimpl. rewrite Hs. wsimpl.
  split; [reflexivity |]. split; [reflexivity |].
  split; [rewrite lookup_delete_ne by discriminate; apply lookup_delete_eq |].
  split; [apply lookup_delete_eq |]. split; [reflexivity |].
  apply refreshAccessToken_refused. reflexivity.
Qed.

(** X9, an instance: the refresh endpoint cannot be reached. *)
Lemma failed_refresh_signs_out_witness :
  fst (refreshAccessToken Scenario.unreachable_refresh (Scenario.world (Some Scenario.held)))
    = Throw (JsError "Failed to fetch") /\
  tokenData (snd (refreshAccessToken Scenario.unreachable_refresh
                    (Scenario.world (Some Scenario.held)))) = None.
Proof.
  destruct (failed_refresh_signs_out Scenario.unreachable_refresh
              (Scenario.world (Some Scenario.held)) (JsError "Failed to fetch")
              eq_refl eq_refl eq_refl eq_refl) as (H1 & H2 & _).
  split; [exact H1 | exact H2].
Defined.

(** [loadTokenData()] adopts what the local store holds, and keeps what is
    in memory when the read fails. *)
Lemma loadTokenData_run env w :
  loadTokenData env w =
  match env_storage env (storage_calls w) with
  | None => (Ok tt, set_tokenData (match local w !! "tokenData" with
                                   | Some (StoredToken td) => Some td
                                   | _ => None
                                   end)
                      (log (StorageOp "local" "get") w))
  | Some e => (Ok tt, log (ConsoleError "Failed to load token data:" e)
                        (log (StorageOp "local" "get") w))
  end.
Proof.
  unfold loadTokenData, try_catch, bind, storage_call, read, modify, console_error.
  destruct (env_storage env (storage_calls w)); reflexivity.
Qed.

(** X10: the token survives the client. A client constructed after a token
    was saved holds that token once its load is done, and a client
    constructed after the token was cleared holds none; when the load fails,
    the new client resolves all the same and starts without a token although
    one is stored. *)
Theorem token_survives_a_new_client :
  forall (env : Env) (process : Process) (td : TokenData) (w : World),
    env_storage env (storage_calls w) = None ->
    (env_storage env (S (storage_calls w)) = None ->
     tokenData (snd ((let* _ := saveTokenData env td in
                      EdgeFetchClient.constructor env process) w)) = Some td /\
     tokenData (snd ((let* _ := clearTokenData env in
                      EdgeFetchClient.constructor env process) w)) = None) /\
    (forall e, env_storage env (S (storage_calls w)) = Some e ->
     fst ((let* _ := saveTokenData env td in
           EdgeFetchClient.constructor env process) w) = Ok tt /\
     tokenData (snd ((let* _ := saveTokenData env td in
                      EdgeFetchClient.constructor env process) w)) = None /\
     local (snd ((let* _ := saveTokenData env td in
                  EdgeFetchClient.constructor env process) w)) !! "tokenData" =
       Some (StoredToken td)).
Proof.
  intros env process td w Hs0.
  assert (Hsave : (let* _ := saveTokenData env td in EdgeFetchClient.constructor env process) w =
                  EdgeFetchClient.constructor env process (snd (saveTokenData env td w))).
  { unfold bind at 1. rewrite saveTokenData_run. reflexivity. }
  assert (Hclear : (let* _ := clearTokenData env in EdgeFetchClient.constructor env process) w =
                   EdgeFetchClient.constructor env process (snd (clearTokenData env w))).
  { unfold bind at 1. rewrite clearTokenData_run. reflexivity. }
  rewrite Hsave, Hclear, saveTokenData_world, clearTokenData_world, Hs0.
  unfold EdgeFetchClient.constructor, bind, modify.
  rewrite !loadTokenData_run. unfold storage_calls. wsimpl.
  fold (storage_calls w). split.
  - intros Hs1. rewrite Hs1. wsimpl. split.
    + rewrite lookup_insert_eq. reflexivity.
    + rewrite lookup_delete_ne by discriminate. rewrite lookup_delete_eq. reflexivity.
  - intros e Hs1. rewrite Hs1. wsimpl. split; [reflexivity |]. split; [reflexivity |].
    apply lookup_insert_eq.
Qed.

(** X10, an instance: a token saved by a client that held none. *)
Lemma token_survives_a_new_client_witness :
  tokenData (snd ((let* _ := saveTokenData Scenario.serving Scenario.held in
                   EdgeFetchClient.constructor Scenario.serving NoProcess)
                    (Scenario.world None))) = Some Scenario.held /\
  baseUrl (snd ((let* _ := saveTokenData Scenario.serving Scenario.held in
                 EdgeFetchClient.constructor Scenario.serving NoProcess)
                  (Scenario.world None))) = "http://localhost:8787".
Proof.
  split; [| reflexivity].
  exact (proj1 (proj1 (token_survives_a_new_client Scenario.serving NoProcess Scenario.held
                         (Scenario.world None) eq_refl) eq_refl)).
Defined.

(** ** The method wrappers *)

Lemma fetch_requests_carry env endpoint options w :
  exists l,
    sent_by (fetch env endpoint options) w l /\
    Forall (fun r => method r = opt_method options /\ body r = opt_body options) l.
Proof.
  destruct (fetch_requests_uniform env endpoint options w) as (l & Hl & _ & Hu & _).
  exists l. split; [exact Hl |].
  eapply Forall_impl; [exact Hu |].
  intros r (_ & Hm & Hb & _). auto.
Qed.

Lemma serialized_run data w :
  serialized data w =
  match payload_json data with
  | inr e => if payload_truthy data then (Throw e, w) else (Ok None, w)
  | inl s => (Ok (sent_body data), w)
  end.
Proof.
  unfold serialized, stringified, sent_body.
  destruct (payload_truthy data), (payload_json data); reflexivity.
Qed.

(** X11: [get], [post], [put] and [delete] decide the method, and [post]
    and [put] the body, of every request of the call, the resend included,
    whatever the caller's options name: [get] and [delete] keep the body of
    the options; [post] and [put] send the serialised data when the data is
    truthy and no body at all when it is falsy, dropping a body named in the
    options; and when serialising throws, nothing is sent and the error
    reaches the caller. *)
Theorem wrappers_fix_method_and_body :
  forall (env : Env) (endpoint : string) (data : Payload) (options : option EdgeFetchOptions)
         (w : World),
    (exists l, sent_by (EdgeFetchClient.get env endpoint options) w l /\
       Forall (fun r => method r = Some "GET" /\
                        body r = opt_body (default default_options options)) l) /\
    (exists l, sent_by (EdgeFetchClient.delete env endpoint options) w l /\
       Forall (fun r => method r = Some "DELETE" /\
                        body r = opt_body (default default_options options)) l) /\
    (exists l, sent_by (EdgeFetchClient.post env endpoint data options) w l /\
       Forall (fun r => method r = Some "POST" /\ body r = sent_body data) l) /\
    (exists l, sent_by (EdgeFetchClient.put env endpoint data options) w l /\
       Forall (fun r => method r = Some "PUT" /\ body r = sent_body data) l) /\
    (forall e, payload_truthy data = true -> payload_json data = inr e ->
       EdgeFetchClient.post env endpoint data options w = (Throw e, w) /\
       EdgeFetchClient.put env endpoint data options w = (Throw e, w)).
Proof.
  intros env endpoint data options w.
  assert (Hwith : forall m,
            exists l, sent_by (let* b := serialized data in
                               fetch env endpoint (EdgeFetchClient.with_request options m b)) w l /\
              Forall (fun r => method r = Some m /\ body r = sent_body data) l).
  { intros m. unfold sent_by, bind. rewrite serialized_run.
    destruct (payload_json data) as [s|e] eqn:Hj.
    - apply fetch_requests_carry.
    - destruct (payload_truthy data) eqn:Ht.
      + exists []. rewrite app_nil_r. split; [reflexivity | constructor].
      + replace (sent_body data) with (@None string)
          by (unfold sent_body; rewrite Ht; reflexivity).
        apply (fetch_requests_carry env endpoint (EdgeFetchClient.with_request options m None)). }
  split.
  { exact (fetch_requests_carry env endpoint
             (EdgeFetchClient.with_request options "GET"
                (opt_body (default default_options options))) w). }
  split.
  { exact (fetch_requests_carry env endpoint
             (EdgeFetchClient.with_request options "DELETE"
                (opt_body (default default_options options))) w). }
  split; [exact (Hwith "POST") |]. split; [exact (Hwith "PUT") |].
  intros e Ht Hj. unfold EdgeFetchClient.post, EdgeFetchClient.put, bind.
  rewrite serialized_run, Hj, Ht. split; reflexivity.
Qed.

(** ** Passkey sign-in *)






(** ** The flow manager beyond login and logout *)

(** X14: asking whether the session is alive never rejects.
    [EdgeAuthFlow.isAuthenticated] and the background worker's
    [handleAuthStatus] give the same answer, which is [true] exactly when
    [edgeFetch("/api/auth/session")] resolves with a status of 200 to 299,
    and [false] in every other case, a rejected request included. Neither
    does anything beyond that one call, except that [handleAuthStatus] logs
    the error of a rejected call. *)
Theorem status_checks_never_reject :
  forall (env : Env) (w : World),
    fst (Background.handleAuthStatus env w) = fst (EdgeAuthFlow.isAuthenticated env w) /\
    (forall e, fst (EdgeAuthFlow.isAuthenticated env w) <> Throw e) /\
    (refreshPromise w = None -> exists b, fst (EdgeAuthFlow.isAuthenticated env w) = Ok b) /\
    (fst (EdgeAuthFlow.isAuthenticated env w) = Ok true <->
     exists r, fst (session_check env w) = Ok r /\ 200 <= status r <= 299) /\
    snd (EdgeAuthFlow.isAuthenticated env w) = snd (session_check env w) /\
    (forall e, fst (session_check env w) = Throw e ->
       snd (Background.handleAuthStatus env w) =
         log (ConsoleError "Auth status check failed:" e) (snd (session_check env w))).
Proof.
  intros env w.
  pose proof (quiet_fetch env "/api/auth/session" default_options w) as Hq.
  unfold Background.handleAuthStatus, EdgeAuthFlow.isAuthenticated, session_check,
    try_catch, bind, ret, console_error, modify in *.
  destruct (fetch env "/api/auth/session" default_options w) as [[r|e|p] w'] eqn:E;
    cbn [fst snd] in *.
  - split; [reflexivity |]. split; [discriminate |]. split; [eauto |].
    split; [| split; [reflexivity | discriminate]].
    split.
    + intros H. inversion H as [Hok]. exists r. split; [reflexivity |].
      unfold ok in Hok. apply andb_true_iff in Hok as [H1 H2].
      apply Z.leb_le in H1. apply Z.leb_le in H2. lia.
    + intros (r' & H & H1). inversion H; subst r'. f_equal. unfold ok.
      apply andb_true_iff. split; apply Z.leb_le; lia.
  - split; [reflexivity |]. split; [discriminate |]. split; [eauto |].
    split; [| split; [reflexivity |]].
    + split; [discriminate |]. intros (r' & H & _). discriminate H.
    + intros e' H. inversion H; subst. reflexivity.
  - split; [reflexivity |]. split; [discriminate |].
    split; [| split; [| split; [reflexivity | discriminate]]].
    + intros Hm. exfalso. destruct (Hq Hm) as [_ Hb]. apply (Hb p). reflexivity.
    + split; [discriminate |]. intros (r' & H & _). discriminate H.
Qed.

Lemma register_shaped env base options userData :
  returns well_shaped (EdgeAuthFlow.register env base options userData).
Proof.
  unfold EdgeAuthFlow.register, stringified.
  destruct (env_platform env); repeat shaped_step.
Qed.

Lemma quiet_stringified data : quiet (stringified data).
Proof. unfold stringified. repeat quiet_step. Qed.

Lemma register_quiet env base options userData :
  quiet (EdgeAuthFlow.register env base options userData).
Proof.
  unfold EdgeAuthFlow.register.
  destruct (env_platform env);
    repeat first [ apply quiet_fetch | apply quiet_stringified | quiet_step ].
Qed.

(** X15: [register]. In the extension it opens the registration page of the
    base URL, with the extension id or "unknown" in the query, sends nothing
    and resolves with the failure "Registration must be completed in web
    browser". Outside the extension it never rejects: started while no
    refresh is in flight it resolves, whatever the server answers. A result
    it resolves with is a success without an error, or a failure with an
    error and neither user nor token. *)
Theorem register_never_rejects_off_the_extension :
  forall (env : Env) (flowBaseUrl : string) (options : AuthFlowOptions) (userData : Payload)
         (w : World),
    (env_platform env = Extension ->
     forall t, env_tab env = inl t ->
       EdgeAuthFlow.register env flowBaseUrl options userData w =
         (Ok (failed "Registration must be completed in web browser"),
          log (TabOpened (flowBaseUrl +:+ "/auth/register?extensionId=" +:+
                          match extensionId options with
                          | Some i => if truthy_string i then i else "unknown"
                          | None => "unknown"
                          end)) w)) /\
    (env_platform env <> Extension ->
     (forall e, fst (EdgeAuthFlow.register env flowBaseUrl options userData w) <> Throw e) /\
     (refreshPromise w = None ->
      exists r, fst (EdgeAuthFlow.register env flowBaseUrl options userData w) = Ok r)) /\
    (forall r, fst (EdgeAuthFlow.register env flowBaseUrl options userData w) = Ok r ->
               well_shaped r).
Proof.
  intros env flowBaseUrl options userData w. split; [| split].
  - intros Hp t Ht. unfold EdgeAuthFlow.register. rewrite Hp.
    unfold bind, modify. rewrite Ht. unfold ret. do 3 f_equal.
    unfold or_else. destruct (extensionId options) as [i|]; cbn; [| reflexivity].
    destruct (truthy_string i); reflexivity.
  - intros Hp.
    assert (Hnt : forall e, fst (EdgeAuthFlow.register env flowBaseUrl options userData w)
                            <> Throw e).
    { intros e. unfold EdgeAuthFlow.register.
      destruct (env_platform env); [congruence | |];
        unfold try_catch;
        match goal with |- context [match ?m w with _ => _ end] =>
          destruct (m w) as [[r|e'|p] w1] end; cbn; discriminate. }
    split; [exact Hnt |].
    intros Hm. destruct (register_quiet env flowBaseUrl options userData w Hm) as [_ Hb].
    destruct (EdgeAuthFlow.register env flowBaseUrl options userData w) as [[r|e|p] w'];
      cbn [fst] in *.
    + eauto.
    + exfalso. apply (Hnt e). reflexivity.
    + exfalso. apply (Hb p). reflexivity.
  - intros r H.
    destruct (EdgeAuthFlow.register env flowBaseUrl options userData w) as [res w'] eqn:E.
    cbn [fst] in H. subst res. exact (register_shaped env flowBaseUrl options userData _ _ _ E).
Qed.

Lemma attemptPasskeyAuth_success env :
  returns (fun r => success r = true) (EdgeAuthFlow.attemptPasskeyAuth env).
Proof. unfold EdgeAuthFlow.attemptPasskeyAuth. repeat shaped_step. Qed.

(** X16: [login()] without credentials on a web page, started while no
    refresh is in flight. It resolves, with a success (the passkey went
    through) or with the failure "No authentication method available": a
    passkey attempt that fails is swallowed and leaves nothing else to try.
    With [usePasskey] off nothing is attempted at all: the only effect is
    the line "Login failed:" on the console. *)
Theorem web_login_without_credentials :
  forall (env : Env) (flowBaseUrl : string) (options : AuthFlowOptions) (w : World),
    env_platform env = Web ->
    refreshPromise w = None ->
    (exists r, fst (EdgeAuthFlow.login env flowBaseUrl options None w) = Ok r /\
               (success r = true \/ r = failed no_method)) /\
    (usePasskey options = false ->
     EdgeAuthFlow.login env flowBaseUrl options None w =
       (Ok (failed no_method), log (ConsoleError "Login failed:" (JsError no_method)) w)).
Proof.
  intros env flowBaseUrl options w Hp Hm. split.
  - rewrite login_run. unfold EdgeAuthFlow.platform_login. rewrite Hp.
    unfold EdgeAuthFlow.webLogin. unfold bind at 1.
    destruct (usePasskey options); cbn [andb negb].
    + rewrite bool_decide_eq_false_2 by (intros [? ?]; discriminate). cbn [negb].
      unfold try_catch, bind at 1.
      destruct (quiet_attemptPasskeyAuth env w Hm) as [_ Hb].
      pose proof (attemptPasskeyAuth_success env w) as Hs.
      destruct (EdgeAuthFlow.attemptPasskeyAuth env w) as [[r|e|p] w1]; cbn [fst] in *.
      * exists r. split; [reflexivity |]. left. exact (Hs r w1 eq_refl).
      * exists (failed no_method). split; [reflexivity | right; reflexivity].
      * exfalso. apply (Hb p). reflexivity.
    + exists (failed no_method). split; [reflexivity | right; reflexivity].
  - intros Hu. rewrite login_run. unfold EdgeAuthFlow.platform_login. rewrite Hp.
    unfold EdgeAuthFlow.webLogin. rewrite Hu. reflexivity.
Qed.

(** X16, an instance: a page without WebAuthn; the passkey attempt fails and
    nothing else is tried. *)
Lemma web_login_without_credentials_witness :
  exists r,
    fst (EdgeAuthFlow.login Scenario.refusing_web "https://edge.example"
           Scenario.flow_options None (Scenario.world None)) = Ok r /\
    (success r = true \/ r = failed no_method).
Proof.
  exact (proj1 (web_login_without_credentials Scenario.refusing_web "https://edge.example"
                  Scenario.flow_options (Scenario.world None) eq_refl eq_refl)).
Defined.



(** ** The session hook *)

Section Establishes.

Context {A B : Type} (P : World -> Prop).

Lemma establishes_bind (m : M A) (k : A -> M B) :
  (forall a, establishes P (k a)) -> establishes P (bind m k).
Proof.
  intros Hk w b w' E. unfold bind in E.
  destruct (m w) as [[a|e|p] w1]; try discriminate. exact (Hk a _ _ _ E).
Qed.

Lemma establishes_then (m : M A) (k : A -> M B) :
  establishes P m -> (forall a, maintains P (k a)) -> establishes P (bind m k).
Proof.
  intros Hm Hk w b w' E. unfold bind in E.
  destruct (m w) as [[a|e|p] w1] eqn:Em; try discriminate.
  specialize (Hk a w1 (Hm _ _ _ Em)). rewrite E in Hk. exact Hk.
Qed.


Lemma establishes_modify (g : World -> World) :
  (forall w, P (g w)) -> establishes P (modify g).
Proof. intros H w a w' E. inversion E; subst. apply H. Qed.

Lemma maintains_preserves {X} (f : World -> X) (m : M A) :
  (forall w w', f w' = f w -> P w -> P w') -> preserves f m -> maintains P m.
Proof. intros Hf Hm w Hw. exact (Hf w _ (Hm w) Hw). Qed.

End Establishes.

Section HookFrame.

Variable env : Env.
Variable JSON_parse : string -> option Stored + Exn.

Lemma session_storage_call area op commit :
  (forall w, session (commit w) = session w) ->
  preserves session (storage_call env area op commit).
Proof. intros H. apply preserves_storage_call; [reflexivity | exact H]. Qed.

Lemma session_sessionStorage_set key v :
  preserves session (useEdgeSession.sessionStorage_set env key v).
Proof.
  unfold useEdgeSession.sessionStorage_set.
  destruct (env_platform env);
    [apply session_storage_call; reflexivity | apply session_storage_call; reflexivity
    | apply preserves_ret].
Qed.

Lemma session_sessionStorage_remove key :
  preserves session (useEdgeSession.sessionStorage_remove env key).
Proof.
  unfold useEdgeSession.sessionStorage_remove.
  destruct (env_platform env);
    [apply session_storage_call; reflexivity | apply preserves_modify; reflexivity
    | apply preserves_ret].
Qed.

Lemma settled_after_clearSession : establishes settled (useEdgeSession.clearSession env).
Proof.
  unfold useEdgeSession.clearSession.
  apply establishes_then; [apply establishes_modify; reflexivity |].
  intros _. apply (maintains_preserves settled session).
  - unfold settled. intros w w' ->. auto.
  - apply preserves_bind; [apply session_sessionStorage_remove |].
    intros _. apply session_sessionStorage_remove.
Qed.

Lemma settled_after_storing u :
  establishes settled
    (let* _ := modify (set_session (useEdgeSession.signed_in u)) in
     useEdgeSession.sessionStorage_set env "edgeSession" (useEdgeSession.signed_in u)).
Proof.
  apply establishes_then; [apply establishes_modify; reflexivity |].
  intros _. apply (maintains_preserves settled session).
  - unfold settled. intros w w' ->. auto.
  - apply session_sessionStorage_set.
Qed.

Lemma quiet_sessionStorage_get key :
  quiet (useEdgeSession.sessionStorage_get env JSON_parse key).
Proof. unfold useEdgeSession.sessionStorage_get. repeat quiet_step. Qed.

Lemma quiet_sessionStorage_set key v :
  quiet (useEdgeSession.sessionStorage_set env key v).
Proof. unfold useEdgeSession.sessionStorage_set. repeat quiet_step. Qed.

Lemma quiet_sessionStorage_remove key :
  quiet (useEdgeSession.sessionStorage_remove env key).
Proof. unfold useEdgeSession.sessionStorage_remove. repeat quiet_step. Qed.

Lemma quiet_clearSession : quiet (useEdgeSession.clearSession env).
Proof.
  unfold useEdgeSession.clearSession.
  repeat first [ apply quiet_sessionStorage_remove | quiet_step ].
Qed.

Lemma quiet_update_session f : quiet (useEdgeSession.update_session f).
Proof. unfold useEdgeSession.update_session. repeat quiet_step. Qed.

Lemma quiet_loadSession : quiet (useEdgeSession.loadSession env JSON_parse).
Proof.
  unfold useEdgeSession.loadSession.
  repeat first [ apply quiet_fetch | apply quiet_clearSession | apply quiet_update_session
               | apply quiet_sessionStorage_get | apply quiet_sessionStorage_set
               | quiet_step ].
Qed.

(** Every run of the [try] block of [loadSession] that completes leaves the
    hook settled. *)
Lemma loadSession_body_settles :
  establishes settled
    (let* _ := useEdgeSession.update_session useEdgeSession.begin_loading in
     let* cachedSession := useEdgeSession.sessionStorage_get env JSON_parse "edgeSession" in
     let* _ := (match useEdgeSession.cached_user cachedSession with
                | Some u => useEdgeSession.update_session (useEdgeSession.show_cached u)
                | None => ret tt
                end) in
     let* response := fetch env "/api/auth/session" default_options in
     if ok response then
       let* userData := response_json response in
       let* _ := modify (set_session (useEdgeSession.signed_in userData)) in
       useEdgeSession.sessionStorage_set env "edgeSession"
         (useEdgeSession.signed_in userData)
     else useEdgeSession.clearSession env).
Proof.
  apply establishes_bind. intros _. apply establishes_bind. intros cached.
  apply establishes_bind. intros _. apply establishes_bind. intros r.
  destruct (ok r); [| apply settled_after_clearSession].
  apply establishes_bind. intros u. apply settled_after_storing.
Qed.

End HookFrame.

(** X18: [loadSession] (and so [refresh]) never rejects and never leaves the
    hook loading. Whatever the store, the parser and the server do, a run
    started while no refresh is in flight resolves, and [isLoading] is
    [false] when it does. *)
Theorem loadSession_always_settles :
  forall (env : Env) (JSON_parse : string -> option Stored + Exn) (w : World),
    (forall e, fst (useEdgeSession.loadSession env JSON_parse w) <> Throw e) /\
    (forall e, fst (useEdgeSession.refresh env JSON_parse w) <> Throw e) /\
    (refreshPromise w = None ->
     fst (useEdgeSession.loadSession env JSON_parse w) = Ok tt /\
     session_isLoading (session (snd (useEdgeSession.loadSession env JSON_parse w))) = false).
Proof.
  intros env JSON_parse w.
  pose proof (loadSession_body_settles env JSON_parse w) as Hbody.
  pose proof (quiet_loadSession env JSON_parse w) as Hq.
  unfold useEdgeSession.refresh, useEdgeSession.loadSession in *. unfold try_catch in *.
  match goal with |- context [match ?m w with _ => _ end] =>
    destruct (m w) as [[[]|e|p] w1] end; cbn [fst snd] in *.
  - split; [discriminate |]. split; [discriminate |].
    intros _. split; [reflexivity |]. exact (Hbody tt w1 eq_refl).
  - unfold bind, console_error, modify, useEdgeSession.update_session. cbn [fst snd].
    split; [discriminate |]. split; [discriminate |]. intros _. split; reflexivity.
  - split; [discriminate |]. split; [discriminate |]. intros Hm. exfalso.
    destruct (Hq Hm) as [_ Hb]. apply (Hb p). reflexivity.
Qed.

(** In the extension, once the cached session is read, [loadSession] is
    decided by the session check. *)
Lemma loadSession_validates env JSON_parse w :
  env_platform env = Extension ->
  env_storage env (storage_calls w) = None ->
  useEdgeSession.loadSession env JSON_parse w =
  match session_check env (validating w) with
  | (Ok r, w3) =>
      try_catch
        (if ok r then
           let* userData := response_json r in
           let* _ := modify (set_session (useEdgeSession.signed_in userData)) in
           useEdgeSession.sessionStorage_set env "edgeSession"
             (useEdgeSession.signed_in userData)
         else useEdgeSession.clearSession env)
        (fun error =>
           let* _ := console_error "Failed to load session:" error in
           useEdgeSession.update_session
             (useEdgeSession.end_with_error (message_or "Session load failed" error))) w3
  | (Throw e, w3) =>
      (Ok tt,
       set_session (useEdgeSession.end_with_error (message_or "Session load failed" e)
                      (session w3))
         (log (ConsoleError "Failed to load session:" e) w3))
  | (Blocked p, w3) => (Blocked p, w3)
  end.
Proof.
  intros Hp Hs.
  unfold useEdgeSession.loadSession, useEdgeSession.sessionStorage_get, session_check.
  rewrite Hp.
  unfold try_catch at 1. unfold bind at 1. unfold useEdgeSession.update_session at 1.
  unfold modify at 1. unfold bind at 1. unfold bind at 1. unfold storage_call.
  change (storage_calls (set_session (useEdgeSession.begin_loading (session w)) w))
    with (storage_calls w).
  rewrite Hs. unfold read at 1, id. unfold bind at 1.
  change (sync (log (StorageOp "sync" "get")
                  (set_session (useEdgeSession.begin_loading (session w)) w)) !! "edgeSession")
    with (sync w !! "edgeSession").
  assert (Hv : (match useEdgeSession.cached_user (sync w !! "edgeSession") with
               | Some u => useEdgeSession.update_session (useEdgeSession.show_cached u)
               | None => ret tt
               end) (log (StorageOp "sync" "get")
                       (set_session (useEdgeSession.begin_loading (session w)) w)) =
              (Ok tt, validating w)).
  { unfold validating.
    destruct (useEdgeSession.cached_user (sync w !! "edgeSession")); reflexivity. }
  rewrite Hv. unfold bind at 1.
  destruct (fetch env "/api/auth/session" default_options (validating w)) as [[r|e|p] w3];
    reflexivity.
Qed.

(** X19: in the extension, a session check that rejects (the network is
    down, or a 401 could not be repaired) does not sign the user out of the
    popup. [loadSession] resolves, the synced store is as it was, and the
    hook shows the message of the error; when a cached session with a user
    was stored, the hook keeps showing that user as authenticated, next to
    the error. *)
Theorem failed_validation_keeps_cached_session :
  forall (env : Env) (JSON_parse : string -> option Stored + Exn) (w : World) (e : Exn),
    env_platform env = Extension ->
    env_storage env (storage_calls w) = None ->
    fst (session_check env (validating w)) = Throw e ->
    fst (useEdgeSession.loadSession env JSON_parse w) = Ok tt /\
    sync (snd (useEdgeSession.loadSession env JSON_parse w)) = sync w /\
    session_error (session (snd (useEdgeSession.loadSession env JSON_parse w))) =
      Some (message_or "Session load failed" e) /\
    forall s u,
      sync w !! "edgeSession" = Some (StoredSession s) ->
      session_user s = Some u ->
      session (snd (useEdgeSession.loadSession env JSON_parse w)) =
        {| session_user := Some u; session_isAuthenticated := true;
           session_isLoading := false;
           session_error := Some (message_or "Session load failed" e) |}.
Proof.
  intros env JSON_parse w e Hp Hs Hf.
  rewrite (loadSession_validates env JSON_parse w Hp Hs).
  pose proof (session_fetch env "/api/auth/session" default_options (validating w)) as Hse.
  pose proof (sync_fetch env "/api/auth/session" default_options (validating w)) as Hsy.
  unfold session_check in *.
  destruct (fetch env "/api/auth/session" default_options (validating w)) as [[r|e'|p] w3];
    cbn [fst snd] in *; try discriminate.
  inversion Hf; subst e'. wsimpl.
  split; [reflexivity |].
  split.
  { rewrite Hsy. unfold validating.
    destruct (useEdgeSession.cached_user (sync w !! "edgeSession")); reflexivity. }
  split; [reflexivity |].
  intros s u Hc Hu. rewrite Hse. unfold validating. rewrite Hc. cbn. rewrite Hu. reflexivity.
Qed.

(** X19, an instance: the network is down and a session is cached. *)
Lemma failed_validation_keeps_cached_session_witness :
  fst (useEdgeSession.loadSession Scenario.offline Scenario.parse_nothing
         (Scenario.world (Some Scenario.held))) = Ok tt /\
  session (snd (useEdgeSession.loadSession Scenario.offline Scenario.parse_nothing
                  (Scenario.world (Some Scenario.held)))) =
    {| session_user := Some {["id" := "1"]}; session_isAuthenticated := true;
       session_isLoading := false; session_error := Some "Failed to fetch" |}.
Proof.
  destruct (failed_validation_keeps_cached_session Scenario.offline Scenario.parse_nothing
              (Scenario.world (Some Scenario.held)) (JsError "Failed to fetch")
              eq_refl eq_refl eq_refl) as (H1 & _ & _ & H2).
  split; [exact H1 |]. exact (H2 Scenario.somebody {["id" := "1"]} eq_refl eq_refl).
Defined.

(** X20: in the extension, a session check that resolves decides the
    session, provided the store accepts the writes. A 2xx answer signs the
    hook in with the body of the answer as the user and caches that session
    under [edgeSession]; any other answer (never a 401) signs the hook out
    and removes [edgeSession] and [authToken] from the synced store. *)
Theorem validated_session_follows_the_server :
  forall (env : Env) (JSON_parse : string -> option Stored + Exn) (w : World) (r : Response),
    env_platform env = Extension ->
    env_storage env (storage_calls w) = None ->
    fst (session_check env (validating w)) = Ok r ->
    env_storage env (storage_calls (snd (session_check env (validating w)))) = None ->
    (forall u, ok r = true -> resp_json r = inl u ->
       fst (useEdgeSession.loadSession env JSON_parse w) = Ok tt /\
       session (snd (useEdgeSession.loadSession env JSON_parse w)) =
         useEdgeSession.signed_in u /\
       sync (snd (useEdgeSession.loadSession env JSON_parse w)) !! "edgeSession" =
         Some (StoredSession (useEdgeSession.signed_in u))) /\
    (ok r = false ->
     env_storage env (S (storage_calls (snd (session_check env (validating w))))) = None ->
       status r <> 401 /\
       fst (useEdgeSession.loadSession env JSON_parse w) = Ok tt /\
       session (snd (useEdgeSession.loadSession env JSON_parse w)) =
         useEdgeSession.signed_out /\
       sync (snd (useEdgeSession.loadSession env JSON_parse w)) !! "edgeSession" = None /\
       sync (snd (useEdgeSession.loadSession env JSON_parse w)) !! "authToken" = None).
Proof.
  intros env JSON_parse w r Hp Hs Hf Hs1.
  rewrite (loadSession_validates env JSON_parse w Hp Hs).
  pose proof (fetch_not_401 env "/api/auth/session" default_options (validating w)) as Hn.
  unfold session_check in *.
  destruct (fetch env "/api/auth/session" default_options (validating w)) as [[r'|e'|p] w3];
    cbn [fst snd] in *; try discriminate.
  inversion Hf; subst r'. split.
  - intros u Hok Hj. rewrite Hok.
    match goal with |- fst ?x = _ /\ _ => remember x as out eqn:Hout end.
    unfold response_json, useEdgeSession.sessionStorage_set in Hout.
    rewrite Hj, Hp in Hout. mnorm Hout. unfold storage_call in Hout.
    unfold storage_calls in *. wsimpl. rewrite Hs1 in Hout. subst out. wsimpl.
    split; [reflexivity |]. split; [reflexivity |]. apply lookup_insert_eq.
  - intros Hok Hs2. rewrite Hok.
    split; [exact (Hn r w3 eq_refl) |].
    match goal with |- fst ?x = _ /\ _ => remember x as out eqn:Hout end.
    unfold useEdgeSession.clearSession, useEdgeSession.sessionStorage_remove in Hout.
    rewrite Hp in Hout. mnorm Hout. unfold storage_call in Hout.
    unfold storage_calls in *. wsimpl. rewrite Hs1 in Hout. wsimpl.
    rewrite Hs2 in Hout. subst out. wsimpl.
    split; [reflexivity |]. split; [reflexivity |]. split.
    + rewrite lookup_delete_ne by discriminate. apply lookup_delete_eq.
    + apply lookup_delete_eq.
Qed.

(** X20, an instance: the server answers 200 with an empty body. *)
Lemma validated_session_follows_the_server_witness :
  fst (useEdgeSession.loadSession Scenario.serving Scenario.parse_nothing
         (Scenario.world (Some Scenario.held))) = Ok tt /\
  session (snd (useEdgeSession.loadSession Scenario.serving Scenario.parse_nothing
                  (Scenario.world (Some Scenario.held)))) = useEdgeSession.signed_in ∅.
Proof.
  destruct (proj1 (validated_session_follows_the_server Scenario.serving
                     Scenario.parse_nothing (Scenario.world (Some Scenario.held))
                     (Scenario.reply 200 ∅ ∅) eq_refl eq_refl eq_refl eq_refl)
              ∅ eq_refl eq_refl) as (H1 & H2 & _).
  split; [exact H1 | exact H2].
Defined.





(** X23: [updateUser] is optimistic. Without a user it does nothing. With
    one, the hook shows the merged user at once (the fields of [userData]
    win, the other fields are kept) and keeps showing it whether or not the
    write succeeds; in the extension a write the store accepts caches the
    merged session, and a write it rejects makes [updateUser] reject with
    the synced store unchanged. *)
Theorem updateUser_is_optimistic :
  forall (env : Env) (userData : gmap string string) (w : World),
    (session_user (session w) = None -> useEdgeSession.updateUser env userData w = (Ok tt, w)) /\
    (forall user, session_user (session w) = Some user ->
       session (snd (useEdgeSession.updateUser env userData w)) =
         useEdgeSession.with_user (userData ∪ user) (session w) /\
       (forall k, (userData ∪ user) !! k =
                  match userData !! k with Some v => Some v | None => user !! k end) /\
       (env_platform env = Extension ->
        match env_storage env (storage_calls w) with
        | None =>
            fst (useEdgeSession.updateUser env userData w) = Ok tt /\
            sync (snd (useEdgeSession.updateUser env userData w)) !! "edgeSession" =
              Some (StoredSession (useEdgeSession.with_user (userData ∪ user) (session w)))
        | Some e =>
            fst (useEdgeSession.updateUser env userData w) = Throw e /\
            sync (snd (useEdgeSession.updateUser env userData w)) = sync w
        end)).
Proof.
  intros env userData w. split.
  - intros Hu. unfold useEdgeSession.updateUser, bind, read. rewrite Hu. reflexivity.
  - intros user Hu.
    remember (useEdgeSession.updateUser env userData w) as out eqn:Hout.
    unfold useEdgeSession.updateUser in Hout. unfold bind at 1, read at 1 in Hout.
    rewrite Hu in Hout. unfold bind, modify in Hout.
    split; [| split].
    + pose proof (session_sessionStorage_set env "edgeSession"
                    (useEdgeSession.with_user (userData ∪ user) (session w))
                    (set_session (useEdgeSession.with_user (userData ∪ user) (session w)) w))
        as Hs.
      destruct (useEdgeSession.sessionStorage_set env _ _ _) as [[[]|e|p] w1];
        subst out; cbn [fst snd] in *; exact Hs.
    + intros k. rewrite lookup_union. destruct (userData !! k), (user !! k); reflexivity.
    + intros Hp. unfold useEdgeSession.sessionStorage_set in Hout. rewrite Hp in Hout.
      unfold storage_call in Hout. unfold storage_calls in *. wsimpl.
      destruct (env_storage env (count is_storage (trace w))); subst out; wsimpl.
      * split; reflexivity.
      * split; [reflexivity | apply lookup_insert_eq].
Qed.

(** ** The popup and the background worker *)

Lemma clearSession_signs_out env w :
  session (snd (useEdgeSession.clearSession env w)) = useEdgeSession.signed_out.
Proof.
  unfold useEdgeSession.clearSession. unfold bind at 1, modify at 1.
  pose proof (preserves_bind session _ _
                (session_sessionStorage_remove env "edgeSession")
                (fun _ => session_sessionStorage_remove env "authToken")
                (set_session useEdgeSession.signed_out w)) as H.
  exact H.
Qed.

Lemma quiet_hook_logout env : quiet (useEdgeSession.logout env).
Proof.
  unfold useEdgeSession.logout.
  repeat first [ apply quiet_fetch | apply quiet_clearSession | quiet_step ].
Qed.

Lemma hook_logout_signs_out env w :
  refreshPromise w = None ->
  session (snd (useEdgeSession.logout env w)) = useEdgeSession.signed_out.
Proof.
  intros Hm. pose proof (quiet_hook_logout env w Hm) as [_ Hb].
  remember (useEdgeSession.logout env w) as out eqn:Hout.
  unfold useEdgeSession.logout in Hout.
  unfold try_catch, bind at 1, modify at 1 in Hout. unfold bind at 1 in Hout.
  set (wa := set_session _ w) in Hout.
  destruct (fetch env "/api/auth/logout" (with_method "POST" None false) wa) as [[r|e|p] wb].
  - pose proof (clearSession_signs_out env wb) as Hc.
    destruct (useEdgeSession.clearSession env wb) as [[[]|e|p] wc]; cbn [snd] in Hc.
    + subst out. exact Hc.
    + unfold bind, console_error, modify in Hout.
      pose proof (clearSession_signs_out env (log (ConsoleError "Logout error:" e) wc)) as Hc2.
      destruct (useEdgeSession.clearSession env _) as [[[]|e2|p2] wd]; subst out; exact Hc2.
    + subst out. exact Hc.
  - unfold bind, console_error, modify in Hout.
    pose proof (clearSession_signs_out env (log (ConsoleError "Logout error:" e) wb)) as Hc2.
    destruct (useEdgeSession.clearSession env _) as [[[]|e2|p2] wd]; subst out; exact Hc2.
  - subst out. exfalso. apply (Hb p). reflexivity.
Qed.

Lemma quiet_edge_url process : quiet (useEdgeSession.edge_url process).
Proof. unfold useEdgeSession.edge_url. repeat quiet_step. Qed.

Lemma quiet_hook_login env process credentials :
  quiet (useEdgeSession.login env process credentials).
Proof.
  unfold useEdgeSession.login.
  repeat first [ apply quiet_fetch | apply quiet_update_session | apply quiet_stringified
               | apply quiet_edge_url | apply quiet_sessionStorage_set | quiet_step ].
Qed.

(** X24: the popup's buttons never leave a rejection unhandled. Started
    while no refresh is in flight, [handleLogin] and [handleLogout] resolve
    whatever the hook's [login] and [logout] do (their errors go to the
    console), and after [handleLogout] the hook shows the signed-out
    session even when the server could not be told or the store rejected
    the removal. *)
Theorem popup_handlers_never_reject :
  forall (env : Env) (process : Process) (w : World),
    refreshPromise w = None ->
    fst (Popup.handleLogin env process w) = Ok tt /\
    fst (Popup.handleLogout env w) = Ok tt /\
    session (snd (Popup.handleLogout env w)) = useEdgeSession.signed_out.
Proof.
  intros env process w Hm. split; [| split].
  - destruct (quiet_hook_login env process Popup.no_credentials w Hm) as [_ Hb].
    unfold Popup.handleLogin, try_catch.
    destruct (useEdgeSession.login env process Popup.no_credentials w) as [[[]|e|p] w1];
      cbn [fst] in *; try reflexivity.
    exfalso. apply (Hb p). reflexivity.
  - destruct (quiet_hook_logout env w Hm) as [_ Hb].
    unfold Popup.handleLogout, try_catch.
    destruct (useEdgeSession.logout env w) as [[[]|e|p] w1]; cbn [fst] in *; try reflexivity.
    exfalso. apply (Hb p). reflexivity.
  - pose proof (hook_logout_signs_out env w Hm) as Hs.
    unfold Popup.handleLogout, try_catch.
    destruct (useEdgeSession.logout env w) as [[[]|e|p] w1]; cbn [fst snd] in *; exact Hs.
Qed.

(** X24, an instance: the popup of an extension whose bundle defines no
    [process], with the store down. *)
Lemma popup_handlers_never_reject_witness :
  fst (Popup.handleLogin Scenario.storage_down NoProcess (Scenario.world None)) = Ok tt /\
  session (snd (Popup.handleLogout Scenario.storage_down (Scenario.world None))) =
    useEdgeSession.signed_out.
Proof.
  destruct (popup_handlers_never_reject Scenario.storage_down NoProcess (Scenario.world None)
              eq_refl) as (H1 & _ & H2).
  split; [exact H1 | exact H2].
Defined.

(** X25: the background worker's [handleDataSync] never rejects: started
    while no refresh is in flight it resolves with a boolean. Data that
    cannot be serialised gives [false] with one console line and no request.
    Every request it sends is a POST to [/api/extension/sync] of the
    configured URL, with the serialised data as body and the JSON content
    type. *)
Theorem data_sync_never_rejects :
  forall (env : Env) (data : Payload) (w : World),
    (forall e, fst (Background.handleDataSync env data w) <> Throw e) /\
    (refreshPromise w = None -> exists b, fst (Background.handleDataSync env data w) = Ok b) /\
    (forall e, payload_json data = inr e ->
       Background.handleDataSync env data w =
         (Ok false, log (ConsoleError "Data sync failed:" e) w)) /\
    exists l,
      sent_by (Background.handleDataSync env data) w l /\
      Forall (fun r => url r = target (configured_url w) "/api/extension/sync" /\
                       method r = Some "POST" /\
                       payload_json data = inl (body r) /\
                       headers r !! "Content-Type" = Some "application/json") l.
Proof.
  intros env data w.
  assert (Hq : quiet (Background.handleDataSync env data)).
  { unfold Background.handleDataSync.
    repeat first [ apply quiet_fetch | apply quiet_stringified | quiet_step ]. }
  assert (Hnt : forall e, fst (Background.handleDataSync env data w) <> Throw e).
  { intros e. unfold Background.handleDataSync, try_catch.
    match goal with |- context [match ?m w with _ => _ end] =>
      destruct (m w) as [[b|e'|p] w1] end; cbn; discriminate. }
  split; [exact Hnt |]. split; [| split].
  - intros Hm. destruct (Hq w Hm) as [_ Hb].
    destruct (Background.handleDataSync env data w) as [[b|e|p] w1]; cbn [fst] in *.
    + eauto.
    + exfalso. apply (Hnt e). reflexivity.
    + exfalso. apply (Hb p). reflexivity.
  - intros e Hj. unfold Background.handleDataSync, try_catch, bind, stringified.
    rewrite Hj. reflexivity.
  - unfold sent_by, Background.handleDataSync, try_catch, bind at 1, stringified.
    destruct (payload_json data) as [s|e] eqn:Hj.
    + unfold ret at 1.
      destruct (fetch_requests_uniform env "/api/extension/sync"
                  (Background.sync_request s) w) as (l & Hl & _ & Hu & _).
      unfold sent_by in Hl. exists l. split.
      * unfold bind.
        destruct (fetch env "/api/extension/sync" (Background.sync_request s) w)
          as [[r|e|p] w1]; cbn [fst snd] in *; exact Hl.
      * eapply Forall_impl; [exact Hu |].
        intros r (H1 & H2 & H3 & H4). split; [exact H1 |]. split; [exact H2 |].
        split; [rewrite H3; reflexivity |].
        rewrite H4 by discriminate. reflexivity.
    + exists []. rewrite app_nil_r. split; [reflexivity | constructor].
Qed.
